(** * matchcommits.py: the closest-commit search

    A shallow embedding of [find_closest_commits] (matchcommits.py, lines
    120-167) and of the objects it reads from GitPython, followed by the
    properties of the search stated in the specification. *)

From Stdlib Require Import String DecimalString ZArith List Bool Lia.
From Stdlib Require Import Permutation Sorted.
Import ListNotations.
Open Scope Z_scope.

(** ** Data model *)

(** A GitPython commit, reduced to the attributes the search reads:
    [hexsha], [committed_datetime] (an instant, in seconds since the epoch)
    and [parents] (a tuple, empty for a root commit).  A commit object holds
    its parents, so a history is a finite tree and a commit is an inductive
    value. *)
#[warnings="-register-all"]
Inductive Commit : Type :=
  mkCommit (sha : string) (time : Z) (ps : list Commit).

Definition hexsha (c : Commit) : string :=
  match c with mkCommit sha _ _ => sha end.

Definition committed_datetime (c : Commit) : Z :=
  match c with mkCommit _ time _ => time end.

Definition parents (c : Commit) : list Commit :=
  match c with mkCommit _ _ ps => ps end.

(** The exceptions the code of the search raises itself, from an index out
    of range, or hands on from [repo.commit] when the name has no commit.
    Other failures inside GitPython (a malformed revision, a committer time
    out of range) are outside this model. *)
Inductive exn : Type :=
  | IndexError   (* tuple or list index out of range *)
  | BadName.     (* [repo.commit(name)] cannot resolve [name] *)

(** Outcome of a computation: a value, a raised exception, or an exhausted
    iteration budget (for the loop whose termination is proved apart). *)
Inductive result (A : Type) : Type :=
  | Ok (a : A)
  | Raise (e : exn)
  | OutOfFuel.

Arguments Ok {A} a.
Arguments Raise {A} e.
Arguments OutOfFuel {A}.

Definition bind {A B : Type} (r : result A) (k : A -> result B) : result B :=
  match r with
  | Ok a => k a
  | Raise e => Raise e
  | OutOfFuel => OutOfFuel
  end.

Notation "x <- r ;; k" := (bind r (fun x => k))
  (at level 61, r at next level, right associativity).

(** [xs[0]] on a tuple or list. *)
Definition first_item {A : Type} (xs : list A) : result A :=
  match xs with
  | [] => Raise IndexError
  | x :: _ => Ok x
  end.

(** [xs[-1]] on a list. *)
Fixpoint last_item {A : Type} (xs : list A) : result A :=
  match xs with
  | [] => Raise IndexError
  | [x] => Ok x
  | _ :: rest => last_item rest
  end.

(** The command-line flags [find_closest_commits] reads from the global
    [args]. *)
Record Args : Type := mkArgs {
  search_out_of_order : bool;
  always_after : bool;
  always_before : bool
}.

(** A GitPython repository: [repo.head.commit] and [repo.commit(name)]. *)
Record Repo : Type := mkRepo {
  head_commit : Commit;
  commit : string -> option Commit
}.

(** ** Lines 125-132: is the target commit out of order? *)

(** The loop [while count: ...], from a state [(count, next_commit)]; it
    returns the final [(target_ooo, count)]. *)
Fixpoint ooo_loop (count : nat) (next_commit : Commit)
    (target_commit_datetime : Z) : result (bool * nat) :=
  match count with
  | O => Ok (false, O)
  | S count' =>
      next_commit' <- first_item (parents next_commit) ;;
      if committed_datetime next_commit' >? target_commit_datetime
      then Ok (true, count')
      else ooo_loop count' next_commit' target_commit_datetime
  end.

Definition IsOutOfOrder (target_commit : Commit) : result bool :=
  r <- ooo_loop 200 target_commit (committed_datetime target_commit) ;;
  Ok (fst r).

(** Number of parent lookups the detector made, from the final [count]. *)
Definition ooo_steps (target_commit : Commit) : result nat :=
  r <- ooo_loop 200 target_commit (committed_datetime target_commit) ;;
  Ok (200 - snd r)%nat.

(** ** Lines 140-157: building the search stack *)

(** State of the outer loop.  [stack] and [ooo_commits] are Python lists,
    kept in Python order: index 0 first, [append] at the end. *)
Record state : Type := mkState {
  stack : list Commit;
  ooo_commits : list Commit;
  count : Z
}.

(** Lines 146-149: [while len(stack) and next_commit > stack[0]:
    ooo_commits.append(stack.pop())].  Each iteration shortens [stack], so
    [length stack] iterations are enough. *)
Fixpoint evict (n : nat) (next_commit : Commit) (stk ooo : list Commit)
    : list Commit * list Commit :=
  match n with
  | O => (stk, ooo)
  | S n' =>
      match stk with
      | [] => (stk, ooo)
      | s0 :: _ =>
          if committed_datetime next_commit >? committed_datetime s0
          then evict n' next_commit (removelast stk) (ooo ++ [last stk s0])
          else (stk, ooo)
      end
  end.

(** Lines 150-155 and 157: the countdown, updated for [next_commit]. *)
Definition update_count (target_commit_datetime : Z) (next_commit : Commit)
    (count : Z) : Z :=
  let count1 :=
    if (committed_datetime next_commit <? target_commit_datetime)
       && (count <? 0)
    then 200 else count in
  let count2 :=
    if (count1 >? 0)
       && (committed_datetime next_commit >? target_commit_datetime)
    then -1 else count1 in
  count2 - 1.

(** One iteration of the outer loop, lines 144-157. *)
Definition loop_body (target_commit_datetime : Z) (st : state) : result state :=
  top <- last_item (stack st) ;;
  next_commit <- first_item (parents top) ;;
  let '(stk, ooo) :=
    evict (length (stack st)) next_commit (stack st) (ooo_commits st) in
  Ok (mkState (stk ++ [next_commit]) ooo
        (update_count target_commit_datetime next_commit (count st))).

(** [while count: ...] with an iteration budget. *)
Fixpoint while_loop (fuel : nat) (target_commit_datetime : Z) (st : state)
    : result state :=
  match fuel with
  | O => OutOfFuel
  | S fuel' =>
      if count st =? 0 then Ok st
      else st' <- loop_body target_commit_datetime st ;;
           while_loop fuel' target_commit_datetime st'
  end.

(** Number of first-parent steps from a commit to the root of its history. *)
Fixpoint depth (c : Commit) : nat :=
  match c with
  | mkCommit _ _ ps =>
      match ps with
      | [] => O
      | p :: _ => S (depth p)
      end
  end.

(** The first-parent chain of a commit, the commit itself first. *)
Fixpoint lineage (c : Commit) : list Commit :=
  match c with
  | mkCommit _ _ ps =>
      c :: match ps with
           | [] => []
           | p :: _ => lineage p
           end
  end.

Definition init_state (tip : Commit) : state := mkState [tip] [] (-1).

(** The whole traversal from a tip.  Every iteration steps to a parent, so
    [depth tip] iterations and a last test of [count] are enough
    ([BuildCandidates_total]). *)
Definition BuildCandidates (tip : Commit) (target_commit_datetime : Z)
    : result state :=
  while_loop (S (depth tip)) target_commit_datetime (init_state tip).

(** ** Lines 159-167: selecting the closest commits *)

Definition distance (target_commit_datetime : Z) (c : Commit) : Z :=
  Z.abs (committed_datetime c - target_commit_datetime).

(** Lines 159-160. *)
Definition merge_anomalies (target_ooo : bool) (stk ooo : list Commit)
    : list Commit :=
  if target_ooo then stk ++ ooo else stk.

(** Lines 161-164. *)
Definition apply_policy (args : Args) (target_commit_datetime : Z)
    (stk : list Commit) : list Commit :=
  if always_after args then
    filter (fun c => committed_datetime c >=? target_commit_datetime) stk
  else if always_before args then
    filter (fun c => committed_datetime c <? target_commit_datetime) stk
  else stk.

(** [list.sort(key=...)]: ascending in the key and stable.  Insertion from
    the right puts an element before the first one whose key is not
    smaller, hence before every later element of equal key. *)
Section Sort.
Context {A : Type} (key : A -> Z).

Fixpoint insert_by (x : A) (l : list A) : list A :=
  match l with
  | [] => [x]
  | y :: l' => if key x <=? key y then x :: l else y :: insert_by x l'
  end.

Fixpoint sort_by (l : list A) : list A :=
  match l with
  | [] => []
  | x :: l' => insert_by x (sort_by l')
  end.

End Sort.

(** Line 167: [(stack[0], stack[1] if len(stack) > 1 else None)]. *)
Definition closest_pair (stk : list Commit) : result (Commit * option Commit) :=
  best <- first_item stk ;;
  Ok (best, if (1 <? length stk)%nat then nth_error stk 1 else None).

Definition candidate_list (stk ooo : list Commit) (target_commit_datetime : Z)
    (target_ooo : bool) (args : Args) : list Commit :=
  apply_policy args target_commit_datetime (merge_anomalies target_ooo stk ooo).

Definition SelectClosest (stk ooo : list Commit) (target_commit_datetime : Z)
    (target_ooo : bool) (args : Args) : result (Commit * option Commit) :=
  closest_pair
    (sort_by (distance target_commit_datetime)
       (candidate_list stk ooo target_commit_datetime target_ooo args)).

(** ** Lines 120-167: the search *)

(** Line 140: [repo.commit(branch) if branch else repo.head.commit]. *)
Definition resolve_tip (repo : Repo) (branch : string) : result Commit :=
  if String.eqb branch EmptyString then Ok (head_commit repo)
  else match commit repo branch with
       | Some c => Ok c
       | None => Raise BadName
       end.

Definition find_closest_commits (args : Args) (repo : Repo)
    (target_commit : Commit) (branch : string)
    : result (Commit * option Commit) :=
  let target_commit_datetime := committed_datetime target_commit in
  target_ooo <- IsOutOfOrder target_commit ;;
  let target_ooo :=
    if search_out_of_order args && negb target_ooo then true else target_ooo in
  tip <- resolve_tip repo branch ;;
  st <- BuildCandidates tip target_commit_datetime ;;
  SelectClosest (stack st) (ooo_commits st) target_commit_datetime
    target_ooo args.

(** ** Example histories *)

(** A linear history of [S n] commits, the tip at [time] and every parent
    [step] seconds before its child; the commits are named by their depth. *)
Fixpoint linear_history (n : nat) (time step : Z) : Commit :=
  mkCommit (NilZero.string_of_uint (Nat.to_uint n)) time
    match n with
    | O => []
    | S n' => [linear_history n' (time - step) step]
    end.

Definition no_flags : Args := mkArgs false false false.

Definition repo_at (tip : Commit) : Repo := mkRepo tip (fun _ => Some tip).

(** A target commit committed at [time] with 200 ancestors, each a minute
    older than its child: its lineage has no inversion and is long enough
    for the lineage check to run to its end. *)
Definition orderly_target (time : Z) : Commit := linear_history 200 time 60.

(** Midnight UTC of a day of January 2024, plus some hours. *)
Definition jan_2024 (day hour : Z) : Z :=
  1704067200 + (day - 1) * 86400 + hour * 3600.

(** The chain [2024-01-15, 2024-01-09, 2024-01-08] of the specification's
    scenario, over the parents [older] of its last commit. *)
Definition commit_08 (older : list Commit) : Commit :=
  mkCommit "c08" (jan_2024 8 0) older.

Definition commit_09 (older : list Commit) : Commit :=
  mkCommit "c09" (jan_2024 9 0) [commit_08 older].

Definition commit_15 (older : list Commit) : Commit :=
  mkCommit "c15" (jan_2024 15 0) [commit_09 older].

(** A chain with one inversion below the tip: committed at 10, 5, 7, then
    4, 3, 2, ... for 251 more commits. *)
Definition inverted_tip : Commit :=
  mkCommit "a" 10 [mkCommit "b" 5 [mkCommit "c" 7 [linear_history 250 4 1]]].

(** A chain whose first three commits are equally far from the time 100:
    committed at 90, 90 and 110, then 80, 79, ... for 251 more commits. *)
Definition tied_tip : Commit :=
  mkCommit "a" 90 [mkCommit "b" 90 [mkCommit "c" 110 [linear_history 250 80 1]]].

(** A tip committed at 900 whose parent is committed later, at 1000, over
    250 more commits a second apart. *)
Definition evicted_tip : Commit :=
  mkCommit "tip" 900 [linear_history 250 1000 1].

(** The state in which a traversal that ended has left its lists. *)
Definition final_state (r : result state) : state :=
  match r with
  | Ok st => st
  | _ => mkState [] [] 0
  end.

(** ** Predicates on traversal states *)

(** [st] holds exactly the commits visited so far: the stack ends with the
    commit [top] reached last, and stack and anomalies together are the
    first-parent chain of [tip] down to [top], in some order. *)
Definition covers (tip : Commit) (st : state) : Prop :=
  exists pre top,
    last_item (stack st) = Ok top /\
    lineage tip = pre ++ lineage top /\
    Permutation (stack st ++ ooo_commits st) (pre ++ [top]).

(** Read from the tip end, committed times never increase. *)
Definition non_increasing (stk : list Commit) : Prop :=
  forall i a b,
    nth_error stk i = Some a -> nth_error stk (S i) = Some b ->
    committed_datetime b <= committed_datetime a.

(** No commit of the list is later than its first one. *)
Definition bounded_by_first (stk : list Commit) : Prop :=
  match stk with
  | [] => True
  | s0 :: _ =>
      Forall (fun c => committed_datetime c <= committed_datetime s0) stk
  end.

(** ** Lines 97-118: reporting a time difference *)

(** [abs(t1 - t2)] of two instants: a [datetime.timedelta], normalised to
    whole days and the seconds left over ([0 <= seconds < 86400]); commit
    times carry no microseconds. *)
Record timedelta : Type := mkTimedelta {
  days : Z;
  seconds : Z
}.

Definition abs_diff (t1 t2 : Z) : timedelta :=
  let d := Z.abs (t1 - t2) in
  mkTimedelta (d / 86400) (d mod 86400).

(** [f"{n}"] for an integer. *)
Definition fmt (n : Z) : string := NilZero.string_of_int (Z.to_int n).

(** The dictionary built by [time_diff]: the values under ["hours"] and
    ["minutes"] are a string or [None], the one under ["seconds"] a string. *)
Record time_diff_dict : Type := mkTimeDiff {
  td_hours : option string;
  td_minutes : option string;
  td_seconds : string
}.

(** Lines 109-115. *)
Definition time_diff (t1 t2 : Z) : time_diff_dict :=
  let diff := abs_diff t1 t2 in
  mkTimeDiff
    (if seconds diff / 3600 =? 0 then None
     else Some (fmt (seconds diff / 3600) ++ " hour(s)")%string)
    (if seconds diff / 60 =? 0 then None
     else Some (fmt (seconds diff mod 3600 / 60) ++ " minute(s)")%string)
    (fmt (seconds diff mod 60) ++ " second(s)")%string.

(** Truth value of a string or [None]. *)
Definition truthy (s : option string) : bool :=
  match s with
  | None => false
  | Some x => negb (String.eqb x EmptyString)
  end.

(** [[x for s in l if s]], the strings of the truthy entries. *)
Fixpoint truthy_strings (l : list (option string)) : list string :=
  match l with
  | [] => []
  | s :: l' =>
      if truthy s
      then match s with
           | Some x => x :: truthy_strings l'
           | None => truthy_strings l'
           end
      else truthy_strings l'
  end.

(** Lines 117-118: [''.join(sum([[s, ', '] for s in [...] if s], [])[:-1])]. *)
Definition time_diff_string (td : time_diff_dict) : string :=
  String.concat EmptyString
    (removelast
       (flat_map (fun s => [s; ", "%string])
          (truthy_strings
             [td_hours td; td_minutes td; Some (td_seconds td)]))).

(** The escape sequences of class [color] that the report uses. *)
Definition ESC : string := String (Ascii.ascii_of_nat 27) EmptyString.
Definition color_GREEN : string := (ESC ++ "[92m")%string.
Definition color_YELLOW : string := (ESC ++ "[93m")%string.
Definition color_RED : string := (ESC ++ "[91m")%string.
Definition color_BOLD : string := (ESC ++ "[1m")%string.
Definition color_END : string := (ESC ++ "[0m")%string.

(** Lines 97-107, as the string handed to [prn]; [ref] and [comp] are the
    committed times of the source and of the target commit. *)
Definition print_commit_comp (ref comp : Z) (target_str : string)
    (warn : bool) : string :=
  let diff := abs_diff ref comp in
  let oldyounger := if ref <? comp then "younger"%string else "older"%string in
  if negb (days diff =? 0) then
    (color_BOLD ++ color_RED ++ "This " ++ target_str ++ " commit is "
     ++ fmt (days diff) ++ " day(s) " ++ oldyounger
     ++ (if warn then ", ensure that this is correct" else "")
     ++ "." ++ color_END)%string
  else
    let td := time_diff ref comp in
    ((if truthy (td_hours td) || truthy (td_minutes td)
      then color_YELLOW else color_GREEN)
     ++ "This " ++ target_str ++ " commit is " ++ time_diff_string td
     ++ " " ++ oldyounger ++ "." ++ color_END)%string.

(** ** Lines 200-204: printing *)

(** The flags [prn] reads from the global [args]; [verbose] counts the
    [-v] given. *)
Record OutputArgs : Type := mkOutputArgs {
  silent : bool;
  verbose : nat;
  dry_run : bool
}.

(** What [prn(str, end=end, verbosity=verbosity)] writes to the standard
    output, if anything; [end] is [None] for the default newline. *)
Definition prn (args : OutputArgs) (str : string) (end_ : option string)
    (verbosity : nat) : option string :=
  if silent args && negb (negb (verbose args =? 0)%nat || dry_run args)
  then None
  else if (verbosity <=? verbose args)%nat
       then Some (str ++ match end_ with
                         | Some e => e
                         | None => String (Ascii.ascii_of_nat 10) EmptyString
                         end)%string
       else None.

(** ** Lines 189-192: the Enterprise path in [addons_path] *)

(** A Python string, as the sequence of its code points. *)
Definition pystr : Type := list N.

(** The Python string of an ASCII literal. *)
Definition lit (s : string) : pystr :=
  map Ascii.N_of_ascii (list_ascii_of_string s).

(** [c.isspace()] for a code point, as [str.strip()] tests it. *)
Definition isspace (c : N) : bool :=
  (((9 <=? c) && (c <=? 13)) || ((28 <=? c) && (c <=? 32))
   || (c =? 133) || (c =? 160) || (c =? 5760)
   || ((8192 <=? c) && (c <=? 8202)) || (c =? 8232) || (c =? 8233)
   || (c =? 8239) || (c =? 8287) || (c =? 12288))%N.

(** [s.split(sep)] for a separator of one character. *)
Fixpoint split (sep : N) (s : pystr) : list pystr :=
  match s with
  | [] => [[]]
  | c :: s' =>
      if (c =? sep)%N then [] :: split sep s'
      else match split sep s' with
           | field :: fields => (c :: field) :: fields
           | [] => [[c]]
           end
  end.

Fixpoint pystr_eqb (s1 s2 : pystr) : bool :=
  match s1, s2 with
  | [], [] => true
  | c1 :: s1', c2 :: s2' => (c1 =? c2)%N && pystr_eqb s1' s2'
  | _, _ => false
  end.

(** [s.endswith(suffix)]. *)
Definition endswith (s suffix : pystr) : bool :=
  (length suffix <=? length s)%nat
  && pystr_eqb (skipn (length s - length suffix) s) suffix.

Fixpoint lstrip (s : pystr) : pystr :=
  match s with
  | [] => []
  | c :: s' => if isspace c then lstrip s' else s
  end.

(** [s.strip()]. *)
Definition strip (s : pystr) : pystr := rev (lstrip (rev (lstrip s))).

(** Lines 189-192: [next((path.strip() for path in addon_paths
    if path.endswith('/enterprise')), None)] over
    [addon_paths = addons_path.split(',')]. *)
Definition enterprise_path (addons_path : pystr) : option pystr :=
  let addon_paths := split 44 addons_path in
  option_map strip
    (find (fun path => endswith path (lit "/enterprise")) addon_paths).

(** The stack is a run of consecutive commits of the chain of [tip], ending
    with the commit visited last; the anomalies are the commits [gone]
    before that run, every one of them earlier than the first commit of the
    stack. *)
Definition splits (tip : Commit) (st : state) : Prop :=
  exists gone top,
    last_item (stack st) = Ok top /\
    lineage tip = gone ++ stack st ++ tl (lineage top) /\
    Permutation (ooo_commits st) gone /\
    bounded_by_first (stack st) /\
    forall s0, hd_error (stack st) = Some s0 ->
      Forall (fun x => committed_datetime x < committed_datetime s0) gone.

(** ** Lists, tuples and the result monad *)

Lemma last_item_snoc {A : Type} (l : list A) (x : A) :
  last_item (l ++ [x]) = Ok x.
Proof.
  induction l as [|y l IH]; [reflexivity|].
  cbn [app last_item]. destruct (l ++ [x]) eqn:E; [|exact IH].
  destruct l; discriminate.
Qed.

Lemma bind_Ok {A B : Type} (r : result A) (k : A -> result B) (b : B) :
  bind r k = Ok b -> exists a, r = Ok a /\ k a = Ok b.
Proof. destruct r; try discriminate. intros H. now exists a. Qed.

Lemma Forall_of_forallb {A : Type} (f : A -> bool) (P : A -> Prop)
    (l : list A) :
  (forall x, f x = true -> P x) -> forallb f l = true -> Forall P l.
Proof.
  intros HP H. apply Forall_forall. intros x Hx.
  apply HP. rewrite forallb_forall in H. now apply H.
Qed.

(** ** First-parent chains *)

Lemma parent_cases (c : Commit) :
  (parents c = [] /\ depth c = O /\ lineage c = [c]) \/
  (exists p ps, parents c = p :: ps /\ depth c = S (depth p) /\
                lineage c = c :: lineage p).
Proof.
  destruct c as [sha time [|p ps]]; [left | right]; cbn; eauto.
Qed.

Lemma lineage_head (c : Commit) : exists l, lineage c = c :: l.
Proof. destruct (parent_cases c) as [(_ & _ & ->)|(p & ps & _ & _ & ->)]; eauto. Qed.

Lemma lineage_length (c : Commit) : length (lineage c) = S (depth c).
Proof.
  remember (depth c) as n eqn:E. revert c E.
  induction n as [|n IH]; intros c E;
    destruct (parent_cases c) as [(_ & D & ->)|(p & ps & _ & D & ->)];
    try congruence; cbn [length].
  - reflexivity.
  - rewrite (IH p) by congruence. reflexivity.
Qed.

(** A commit whose parent chain starts with [next]. *)
Lemma lineage_tail (c next : Commit) (l : list Commit) :
  tl (lineage c) = next :: l ->
  exists ps, parents c = next :: ps /\ lineage next = next :: l.
Proof.
  destruct (parent_cases c) as [(_ & _ & ->)|(p & ps & Hp & _ & ->)];
    cbn [tl]; [discriminate|].
  intros H. destruct (lineage_head p) as [l' E]. rewrite E in H.
  injection H as -> ->. eauto.
Qed.

Lemma lineage_tail_parent (c p : Commit) (ps : list Commit) :
  parents c = p :: ps -> tl (lineage c) = lineage p /\ depth c = S (depth p).
Proof.
  destruct (parent_cases c) as [(E & _)|(p' & ps' & E & D & L)];
    intros H; rewrite H in E; [discriminate|].
  injection E as <- <-. rewrite L. now split.
Qed.

Lemma lineage_tail_root (c : Commit) :
  parents c = [] -> tl (lineage c) = [] /\ depth c = O.
Proof.
  destruct (parent_cases c) as [(_ & D & ->)|(p & ps & E & _)];
    intros H; [now split | congruence].
Qed.

(** Every commit of a chain below its head is strictly nearer to the root. *)
Lemma lineage_depth (c x : Commit) :
  In x (tl (lineage c)) -> (depth x < depth c)%nat.
Proof.
  remember (depth c) as n eqn:E. revert c E.
  induction n as [|n IH]; intros c E;
    destruct (parent_cases c) as [(_ & D & ->)|(p & ps & _ & D & ->)];
    try congruence; cbn [tl]; [intros []|].
  intros Hx. assert (Dp : n = depth p) by congruence.
  destruct (lineage_head p) as [l Hl]. rewrite Hl in Hx.
  destruct Hx as [<-|Hx]; [lia|].
  specialize (IH p Dp). rewrite Hl in IH. specialize (IH Hx). lia.
Qed.

Lemma lineage_NoDup (c : Commit) : NoDup (lineage c).
Proof.
  remember (depth c) as n eqn:E. revert c E.
  induction n as [|n IH]; intros c E;
    destruct (parent_cases c) as [(_ & D & L)|(p & ps & _ & D & L)];
    try congruence.
  - rewrite L. constructor; [intros []|constructor].
  - assert (Hd := lineage_depth c c). rewrite L in *. cbn [tl] in Hd.
    constructor; [intros H; specialize (Hd H); lia|].
    apply IH. congruence.
Qed.

(** ** The eviction loop *)

Lemma evict_nil (n : nat) (next : Commit) (ooo : list Commit) :
  evict n next [] ooo = ([], ooo).
Proof. destruct n; reflexivity. Qed.

(** When [next] is later than [stack[0]], the test stays true until the
    stack is empty: the whole stack goes to [ooo_commits], last entry first. *)
Lemma evict_flush (n : nat) (next s0 : Commit) (r ooo : list Commit) :
  committed_datetime next > committed_datetime s0 ->
  (length r < n)%nat ->
  evict n next (s0 :: r) ooo = ([], ooo ++ rev (s0 :: r)).
Proof.
  intros Hgt. revert r ooo.
  induction n as [|n IH]; intros r ooo Hlen; [lia|].
  cbn [evict]. replace (_ >? _) with true by (symmetry; lia).
  destruct r as [|x r _] using rev_ind.
  - cbn. now rewrite evict_nil.
  - change (s0 :: r ++ [x]) with ((s0 :: r) ++ [x]).
    rewrite removelast_last, last_last, rev_unit.
    rewrite length_app in Hlen. cbn in Hlen.
    rewrite IH by lia. now rewrite <- app_assoc.
Qed.

Lemma evict_spec (next : Commit) (stk ooo : list Commit) :
  evict (length stk) next stk ooo =
  match stk with
  | [] => ([], ooo)
  | s0 :: _ =>
      if committed_datetime next >? committed_datetime s0
      then ([], ooo ++ rev stk) else (stk, ooo)
  end.
Proof.
  destruct stk as [|s0 r]; [reflexivity|].
  destruct (committed_datetime next >? committed_datetime s0) eqn:E.
  - apply evict_flush; [lia | cbn; lia].
  - cbn [length evict]. now rewrite E.
Qed.

Lemma evict_Permutation (next : Commit) (stk ooo : list Commit) :
  Permutation
    (fst (evict (length stk) next stk ooo) ++
     snd (evict (length stk) next stk ooo))
    (stk ++ ooo).
Proof.
  rewrite evict_spec. destruct stk as [|s0 r]; [reflexivity|].
  destruct (_ >? _); [|reflexivity].
  cbn [fst snd]. change ([] ++ ?l) with l.
  rewrite Permutation_app_comm.
  apply Permutation_app_tail. symmetry. apply Permutation_rev.
Qed.

Lemma evict_ooo_incl (next x : Commit) (stk ooo : list Commit) :
  In x ooo -> In x (snd (evict (length stk) next stk ooo)).
Proof.
  intros H. rewrite evict_spec. destruct stk as [|s0 r]; [exact H|].
  destruct (_ >? _); [|exact H].
  cbn [snd]. apply in_or_app. now left.
Qed.

(** ** One iteration *)

(** The outcome of an iteration, in terms of the commit on top of the
    stack and of its parents. *)
Lemma loop_body_root (T : Z) (st : state) (top : Commit) :
  last_item (stack st) = Ok top -> parents top = [] ->
  loop_body T st = Raise IndexError.
Proof.
  intros H1 H2. unfold loop_body. rewrite H1. cbn [bind]. now rewrite H2.
Qed.

Lemma loop_body_step (T : Z) (st : state) (top next : Commit)
    (ps : list Commit) :
  last_item (stack st) = Ok top -> parents top = next :: ps ->
  loop_body T st =
  Ok (mkState
        (fst (evict (length (stack st)) next (stack st) (ooo_commits st))
         ++ [next])
        (snd (evict (length (stack st)) next (stack st) (ooo_commits st)))
        (update_count T next (count st))).
Proof.
  intros H1 H2. unfold loop_body. rewrite H1. cbn [bind]. rewrite H2.
  cbn [bind first_item]. now destruct (evict _ _ _ _).
Qed.

Lemma loop_body_Ok (T : Z) (st st' : state) :
  loop_body T st = Ok st' ->
  exists top next ps,
    last_item (stack st) = Ok top /\ parents top = next :: ps /\
    st' = mkState
        (fst (evict (length (stack st)) next (stack st) (ooo_commits st))
         ++ [next])
        (snd (evict (length (stack st)) next (stack st) (ooo_commits st)))
        (update_count T next (count st)).
Proof.
  intros H. destruct (last_item (stack st)) as [top| |] eqn:H1;
    try (unfold loop_body in H; rewrite H1 in H; discriminate).
  destruct (parents top) as [|next ps] eqn:H2.
  - rewrite (loop_body_root T st top H1 H2) in H. discriminate.
  - rewrite (loop_body_step T st top next ps H1 H2) in H.
    injection H as <-. now exists top, next, ps.
Qed.

(** ** The traversal terminates *)

Lemma while_loop_enough (T : Z) (n : nat) (st : state) (top : Commit) :
  last_item (stack st) = Ok top -> (depth top < n)%nat ->
  while_loop n T st <> OutOfFuel.
Proof.
  revert st top. induction n as [|n IH]; intros st top Htop Hd; [lia|].
  cbn [while_loop]. destruct (count st =? 0); [discriminate|].
  destruct (parents top) as [|next ps] eqn:Hp.
  - now rewrite (loop_body_root T st top Htop Hp).
  - rewrite (loop_body_step T st top next ps Htop Hp). cbn [bind].
    apply (IH _ next); [apply last_item_snoc|].
    apply lineage_tail_parent in Hp. lia.
Qed.

(** More budget than needed changes nothing. *)
Lemma while_loop_more (T : Z) (n m : nat) (st : state) :
  while_loop n T st <> OutOfFuel -> (n <= m)%nat ->
  while_loop m T st = while_loop n T st.
Proof.
  revert m st. induction n as [|n IH]; intros m st H Hle; [now elim H|].
  destruct m as [|m]; [lia|]. cbn [while_loop] in *.
  destruct (count st =? 0); [reflexivity|].
  destruct (loop_body T st) as [st'| |]; cbn [bind] in *; try reflexivity.
  apply IH; [exact H | lia].
Qed.

Lemma BuildCandidates_total (tip : Commit) (T : Z) :
  BuildCandidates tip T <> OutOfFuel.
Proof.
  unfold BuildCandidates. apply (while_loop_enough T _ _ tip); [reflexivity|lia].
Qed.

(** Any budget that lets the loop finish gives the traversal's outcome. *)
Lemma BuildCandidates_fuel (tip : Commit) (T : Z) (n : nat) :
  while_loop n T (init_state tip) <> OutOfFuel ->
  while_loop n T (init_state tip) = BuildCandidates tip T.
Proof.
  intros H. unfold BuildCandidates.
  destruct (Nat.le_ge_cases n (S (depth tip))) as [Hle|Hge].
  - symmetry. now apply while_loop_more.
  - apply while_loop_more; [|exact Hge].
    apply (while_loop_enough T _ _ tip); [reflexivity|lia].
Qed.

(** ** What the traversal holds *)

Lemma covers_init (tip : Commit) : covers tip (init_state tip).
Proof. exists [], tip. cbn. auto. Qed.

Lemma covers_step (tip : Commit) (T : Z) (st st' : state) :
  covers tip st -> loop_body T st = Ok st' -> covers tip st'.
Proof.
  intros (pre & top & Htop & Hlin & Hperm) H.
  apply loop_body_Ok in H as (top' & next & ps & Htop' & Hp & ->).
  assert (top' = top) as -> by congruence.
  destruct (lineage_head top) as [l Hl].
  destruct (lineage_tail_parent _ _ _ Hp) as [Ht _]. rewrite Hl in Ht.
  cbn [tl] in Ht. subst l.
  exists (pre ++ [top]), next. cbn [stack ooo_commits].
  split; [apply last_item_snoc|]. split.
  - rewrite Hlin, Hl, <- app_assoc. reflexivity.
  - rewrite <- app_assoc, (Permutation_app_comm [next]), app_assoc.
    apply Permutation_app_tail.
    rewrite evict_Permutation. exact Hperm.
Qed.

Lemma covers_while (tip : Commit) (T : Z) (n : nat) (st st' : state) :
  covers tip st -> while_loop n T st = Ok st' -> covers tip st'.
Proof.
  revert st. induction n as [|n IH]; intros st Hc H; [discriminate|].
  cbn [while_loop] in H. destruct (count st =? 0); [congruence|].
  apply bind_Ok in H as (st1 & H1 & H2). eauto using covers_step.
Qed.

Lemma covers_NoDup (tip : Commit) (st : state) :
  covers tip st -> NoDup (stack st ++ ooo_commits st).
Proof.
  intros (pre & top & _ & Hlin & Hperm).
  apply (Permutation_NoDup (Permutation_sym Hperm)).
  assert (H := lineage_NoDup tip). rewrite Hlin in H.
  destruct (lineage_head top) as [l Hl]. rewrite Hl in H.
  change (top :: l) with ([top] ++ l) in H. rewrite app_assoc in H.
  now apply NoDup_app_remove_r in H.
Qed.

Lemma covers_prefix (tip : Commit) (st : state) :
  covers tip st ->
  Permutation (stack st ++ ooo_commits st)
    (firstn (length (stack st) + length (ooo_commits st)) (lineage tip)).
Proof.
  intros (pre & top & _ & Hlin & Hperm).
  rewrite <- length_app, (Permutation_length Hperm), Hperm, Hlin.
  destruct (lineage_head top) as [l ->].
  change (top :: l) with ([top] ++ l). rewrite app_assoc.
  now rewrite firstn_app, Nat.sub_diag, firstn_all, app_nil_r.
Qed.

Lemma NoDup_app_disjoint {A : Type} (l1 l2 : list A) (x : A) :
  NoDup (l1 ++ l2) -> In x l1 -> ~ In x l2.
Proof.
  induction l1 as [|y l1 IH]; cbn; [tauto|].
  intros H [->|Hx] H2.
  - inversion H as [|? ? Hn _]. apply Hn, in_or_app. now right.
  - inversion H. now apply IH.
Qed.

(** Anomalies are never taken back during the traversal. *)
Lemma ooo_kept_step (T : Z) (st st' : state) (x : Commit) :
  In x (ooo_commits st) -> loop_body T st = Ok st' -> In x (ooo_commits st').
Proof.
  intros Hx H. apply loop_body_Ok in H as (top & next & ps & _ & _ & ->).
  cbn [ooo_commits]. now apply evict_ooo_incl.
Qed.

Lemma ooo_kept_while (T : Z) (n : nat) (st st' : state) (x : Commit) :
  In x (ooo_commits st) -> while_loop n T st = Ok st' ->
  In x (ooo_commits st').
Proof.
  revert st. induction n as [|n IH]; intros st Hx H; [discriminate|].
  cbn [while_loop] in H. destruct (count st =? 0); [congruence|].
  apply bind_Ok in H as (st1 & H1 & H2). eauto using ooo_kept_step.
Qed.

(** Each iteration adds one commit to the two lists taken together. *)
Lemma loop_body_length (T : Z) (st st' : state) :
  loop_body T st = Ok st' ->
  (length (stack st') + length (ooo_commits st') =
   S (length (stack st) + length (ooo_commits st)))%nat.
Proof.
  intros H. apply loop_body_Ok in H as (top & next & ps & _ & _ & ->).
  cbn [stack ooo_commits].
  assert (P := Permutation_length
                 (evict_Permutation next (stack st) (ooo_commits st))).
  rewrite !length_app in *. cbn [length]. lia.
Qed.

Lemma while_loop_length (T : Z) (n : nat) (st st' : state) :
  while_loop n T st = Ok st' ->
  (length (stack st') + length (ooo_commits st') + 1 <=
   length (stack st) + length (ooo_commits st) + n)%nat.
Proof.
  revert st. induction n as [|n IH]; intros st H; [discriminate|].
  cbn [while_loop] in H. destruct (count st =? 0).
  - injection H as <-. lia.
  - apply bind_Ok in H as (st1 & H1 & H2).
    apply loop_body_length in H1. apply IH in H2. lia.
Qed.

(** ** The stable sort *)

Section SortFacts.
Context {A : Type} (key : A -> Z).

Let le_key (a b : A) : Prop := key a <= key b.

Lemma insert_by_Permutation (x : A) (l : list A) :
  Permutation (insert_by key x l) (x :: l).
Proof.
  induction l as [|y l IH]; cbn [insert_by]; [reflexivity|].
  destruct (key x <=? key y); [reflexivity|].
  rewrite IH. apply perm_swap.
Qed.

Lemma sort_by_Permutation (l : list A) : Permutation (sort_by key l) l.
Proof.
  induction l as [|x l IH]; cbn [sort_by]; [reflexivity|].
  rewrite insert_by_Permutation. now apply perm_skip.
Qed.

Lemma sort_by_length (l : list A) : length (sort_by key l) = length l.
Proof. apply Permutation_length, sort_by_Permutation. Qed.

Lemma sort_by_In (x : A) (l : list A) : In x (sort_by key l) <-> In x l.
Proof.
  split; apply Permutation_in;
    [|symmetry]; apply sort_by_Permutation.
Qed.

Lemma insert_by_sorted (x : A) (l : list A) :
  StronglySorted le_key l -> StronglySorted le_key (insert_by key x l).
Proof.
  induction l as [|y l IH]; intros Hs; cbn [insert_by].
  - repeat constructor.
  - inversion Hs as [|? ? Hl Hy]; subst.
    destruct (key x <=? key y) eqn:E.
    + constructor; [exact Hs|]. constructor; [unfold le_key; lia|].
      eapply Forall_impl; [|exact Hy]. unfold le_key. intros; lia.
    + constructor; [now apply IH|].
      apply (Permutation_Forall (Permutation_sym (insert_by_Permutation x l))).
      constructor; [unfold le_key; lia | exact Hy].
Qed.

Lemma sort_by_sorted (l : list A) : StronglySorted le_key (sort_by key l).
Proof.
  induction l as [|x l IH]; cbn [sort_by]; [constructor|].
  now apply insert_by_sorted.
Qed.

(** Stability: the elements of any one key keep their order. *)
Lemma insert_by_stable (k : Z) (x : A) (l : list A) :
  filter (fun a => key a =? k) (insert_by key x l) =
  filter (fun a => key a =? k) (x :: l).
Proof.
  induction l as [|y l IH]; cbn [insert_by]; [reflexivity|].
  destruct (key x <=? key y) eqn:E; [reflexivity|].
  cbn [filter] in *. rewrite IH.
  destruct (key x =? k) eqn:Ex, (key y =? k) eqn:Ey; try reflexivity.
  lia.
Qed.

Lemma sort_by_stable (k : Z) (l : list A) :
  filter (fun a => key a =? k) (sort_by key l) =
  filter (fun a => key a =? k) l.
Proof.
  induction l as [|x l IH]; cbn [sort_by]; [reflexivity|].
  rewrite insert_by_stable. cbn [filter]. now rewrite IH.
Qed.

(** The first element of the sorted list has the least key. *)
Lemma sort_by_head (l r : list A) (b : A) :
  sort_by key l = b :: r -> In b l /\ forall y, In y l -> key b <= key y.
Proof.
  intros E. split.
  - apply sort_by_In. rewrite E. now left.
  - intros y Hy. apply sort_by_In in Hy. rewrite E in Hy.
    assert (Hs := sort_by_sorted l). rewrite E in Hs.
    inversion Hs as [|? ? _ Hall]; subst.
    destruct Hy as [->|Hy]; [lia|].
    rewrite Forall_forall in Hall. now apply Hall.
Qed.

(** An element smaller than all the others sorts first. *)
Lemma insert_by_least (x : A) (l : list A) :
  Forall (fun y => key x <= key y) l -> insert_by key x l = x :: l.
Proof.
  destruct l as [|y l]; [reflexivity|].
  intros H. inversion H; subst. cbn [insert_by].
  now replace (key x <=? key y) with true by (symmetry; lia).
Qed.

End SortFacts.

(** ** The selection *)

Lemma closest_pair_spec (stk : list Commit) :
  closest_pair stk =
  match stk with
  | [] => Raise IndexError
  | best :: _ => Ok (best, nth_error stk 1)
  end.
Proof.
  destruct stk as [|b [|s r]]; reflexivity.
Qed.

Lemma closest_pair_In (stk : list Commit) (best : Commit)
    (second : option Commit) :
  closest_pair stk = Ok (best, second) ->
  In best stk /\ forall s, second = Some s -> In s stk.
Proof.
  rewrite closest_pair_spec. destruct stk as [|b r]; [discriminate|].
  intros [= -> <-]. split; [now left|].
  intros s H. now apply (nth_error_In _ 1).
Qed.

Lemma apply_policy_In (args : Args) (T : Z) (stk : list Commit) (x : Commit) :
  In x (apply_policy args T stk) -> In x stk.
Proof.
  unfold apply_policy.
  destruct (always_after args); [|destruct (always_before args)];
    try (intros H; now apply filter_In in H); auto.
Qed.

Lemma apply_policy_app (args : Args) (T : Z) (l1 l2 : list Commit) :
  apply_policy args T (l1 ++ l2) =
  apply_policy args T l1 ++ apply_policy args T l2.
Proof.
  unfold apply_policy.
  destruct (always_after args); [|destruct (always_before args)];
    auto using filter_app.
Qed.

(** Whatever is selected was a candidate. *)
Lemma SelectClosest_In (stk ooo : list Commit) (T : Z) (target_ooo : bool)
    (args : Args) (best : Commit) (second : option Commit) :
  SelectClosest stk ooo T target_ooo args = Ok (best, second) ->
  In best (candidate_list stk ooo T target_ooo args) /\
  forall s, second = Some s ->
            In s (candidate_list stk ooo T target_ooo args).
Proof.
  intros H. apply closest_pair_In in H as [Hb Hs].
  split; [now apply sort_by_In in Hb|].
  intros s E. specialize (Hs s E). now apply sort_by_In in Hs.
Qed.

(** ** The lineage check *)

Section Detector.
Variable T : Z.

Let not_later (b : Commit) : Prop := committed_datetime b <= T.

(** The first ancestor later than [T] ends the loop, [count] telling how
    many parents were looked up before it. *)
Lemma ooo_loop_finds (pre : list Commit) :
  forall (n : nat) (c a : Commit) (post : list Commit),
  tl (lineage c) = pre ++ a :: post ->
  Forall not_later pre -> committed_datetime a > T ->
  (length pre < n)%nat ->
  ooo_loop n c T = Ok (true, (n - S (length pre))%nat).
Proof.
  induction pre as [|b pre IH]; intros n c a post Hl Hpre Ha Hn;
    (destruct n as [|n]; [cbn in Hn; lia|]);
    apply lineage_tail in Hl as (ps & Hp & Hl'); cbn [ooo_loop];
    rewrite Hp; cbn [bind first_item].
  - replace (_ >? _) with true by (symmetry; lia).
    cbn [length]. now rewrite Nat.sub_succ, Nat.sub_0_r.
  - inversion Hpre as [|? ? Hb Hpre']; subst. unfold not_later in Hb.
    replace (_ >? _) with false by (symmetry; lia).
    cbn [length] in *. rewrite Nat.sub_succ.
    apply (IH n b a post); try assumption; [|lia]. rewrite Hl'. reflexivity.
Qed.

(** With no later ancestor, a history shorter than the remaining count
    ends in a failed lookup of [parents[0]]. *)
Lemma ooo_loop_root (n : nat) :
  forall c : Commit,
  Forall not_later (tl (lineage c)) -> (depth c < n)%nat ->
  ooo_loop n c T = Raise IndexError.
Proof.
  induction n as [|n IH]; intros c Hall Hd; [lia|]. cbn [ooo_loop].
  destruct (parents c) as [|p ps] eqn:Hp; [reflexivity|].
  destruct (lineage_tail_parent _ _ _ Hp) as [Ht Hdp]. rewrite Ht in Hall.
  destruct (lineage_head p) as [l Hl]. rewrite Hl in Hall.
  inversion Hall as [|? ? Hb Hall']; subst. unfold not_later in Hb.
  cbn [bind first_item]. replace (_ >? _) with false by (symmetry; lia).
  apply IH; [now rewrite Hl | lia].
Qed.

(** With no later ancestor, a history at least as long as the remaining
    count ends the loop with [count = 0]. *)
Lemma ooo_loop_exhausted (n : nat) :
  forall c : Commit,
  Forall not_later (firstn n (tl (lineage c))) -> (n <= depth c)%nat ->
  ooo_loop n c T = Ok (false, O).
Proof.
  induction n as [|n IH]; intros c Hall Hd; [reflexivity|]. cbn [ooo_loop].
  destruct (parents c) as [|p ps] eqn:Hp.
  - apply lineage_tail_root in Hp. lia.
  - destruct (lineage_tail_parent _ _ _ Hp) as [Ht Hdp]. rewrite Ht in Hall.
    destruct (lineage_head p) as [l Hl]. rewrite Hl in Hall.
    cbn [firstn] in Hall.
    inversion Hall as [|? ? Hb Hall']; subst. unfold not_later in Hb.
    cbn [bind first_item]. replace (_ >? _) with false by (symmetry; lia).
    apply IH; [now rewrite Hl | lia].
Qed.

End Detector.

(** ** The countdown *)

Section Countdown.
Variable T : Z.

Lemma update_count_inactive (next : Commit) (count : Z) :
  count < 0 -> T <= committed_datetime next ->
  update_count T next count = count - 1.
Proof.
  intros H1 H2. unfold update_count.
  replace (committed_datetime next <? T) with false by (symmetry; lia).
  cbn [andb]. replace (count >? 0) with false by (symmetry; lia).
  reflexivity.
Qed.

Lemma update_count_start (next : Commit) (count : Z) :
  count < 0 -> committed_datetime next < T ->
  update_count T next count = 199.
Proof.
  intros H1 H2. unfold update_count.
  replace (committed_datetime next <? T) with true by (symmetry; lia).
  replace (count <? 0) with true by (symmetry; lia).
  cbn [andb]. replace (committed_datetime next >? T) with false
    by (symmetry; lia).
  reflexivity.
Qed.

Lemma update_count_running (next : Commit) (count : Z) :
  0 < count -> committed_datetime next <= T ->
  update_count T next count = count - 1.
Proof.
  intros H1 H2. unfold update_count.
  replace (count <? 0) with false by (symmetry; lia).
  rewrite andb_false_r.
  replace (committed_datetime next >? T) with false by (symmetry; lia).
  now rewrite andb_false_r.
Qed.

Lemma update_count_reset (next : Commit) (count : Z) :
  0 < count -> T < committed_datetime next ->
  update_count T next count = -2.
Proof.
  intros H1 H2. unfold update_count.
  replace (count <? 0) with false by (symmetry; lia).
  rewrite andb_false_r.
  replace (count >? 0) with true by (symmetry; lia).
  replace (committed_datetime next >? T) with true by (symmetry; lia).
  reflexivity.
Qed.

Lemma while_loop_stop (n : nat) (st : state) :
  count st = 0 -> while_loop (S n) T st = Ok st.
Proof. intros H. cbn [while_loop]. now rewrite H. Qed.

Lemma while_loop_unfold (n : nat) (st : state) (top next : Commit)
    (ps : list Commit) :
  count st <> 0 ->
  last_item (stack st) = Ok top -> parents top = next :: ps ->
  while_loop (S n) T st =
  while_loop n T
    (mkState
       (fst (evict (length (stack st)) next (stack st) (ooo_commits st))
        ++ [next])
       (snd (evict (length (stack st)) next (stack st) (ooo_commits st)))
       (update_count T next (count st))).
Proof.
  intros Hc Htop Hp. cbn [while_loop].
  rewrite (proj2 (Z.eqb_neq _ _) Hc).
  now rewrite (loop_body_step T st top next ps Htop Hp).
Qed.

Lemma while_loop_at_root (n : nat) (st : state) (top : Commit) :
  count st <> 0 ->
  last_item (stack st) = Ok top -> parents top = [] ->
  while_loop (S n) T st = Raise IndexError.
Proof.
  intros Hc Htop Hp. cbn [while_loop].
  rewrite (proj2 (Z.eqb_neq _ _) Hc).
  now rewrite (loop_body_root T st top Htop Hp).
Qed.

(** A running countdown of [c] ends the loop within [c] iterations when
    no commit later than [T] re-opens the window. *)
Lemma countdown_within (c : nat) :
  forall (st : state) (top : Commit),
  count st = Z.of_nat c -> last_item (stack st) = Ok top ->
  Forall (fun a => committed_datetime a <= T) (tl (lineage top)) ->
  while_loop (S c) T st <> OutOfFuel.
Proof.
  induction c as [|c IH]; intros st top Hc Htop Hall.
  - now rewrite while_loop_stop.
  - destruct (parents top) as [|next ps] eqn:Hp.
    + rewrite (while_loop_at_root _ st top) by (assumption || lia).
      discriminate.
    + rewrite (while_loop_unfold _ st top next ps) by (assumption || lia).
      destruct (lineage_tail_parent _ _ _ Hp) as [Ht _]. rewrite Ht in Hall.
      destruct (lineage_head next) as [l Hl]. rewrite Hl in Hall.
      inversion Hall; subst.
      apply (IH _ next); cbn [count stack].
      * rewrite update_count_running by lia. lia.
      * apply last_item_snoc.
      * now rewrite Hl.
Qed.

(** Before the countdown starts: [pre] are the commits ahead that are not
    earlier than [T], [post] the earlier ones that follow. *)
Lemma inactive_within (pre : list Commit) :
  forall (st : state) (top : Commit) (post : list Commit),
  count st < 0 -> last_item (stack st) = Ok top ->
  tl (lineage top) = pre ++ post ->
  Forall (fun a => T <= committed_datetime a) pre ->
  Forall (fun a => committed_datetime a < T) post ->
  while_loop (S (length pre + 200)) T st <> OutOfFuel.
Proof.
  induction pre as [|a pre IH]; intros st top post Hc Htop Hl Hpre Hpost.
  - cbn [app length Nat.add] in *.
    destruct (parents top) as [|next ps] eqn:Hp.
    + rewrite (while_loop_at_root _ st top) by (assumption || lia).
      discriminate.
    + rewrite (while_loop_unfold _ st top next ps) by (assumption || lia).
      destruct (lineage_tail_parent _ _ _ Hp) as [Ht _]. rewrite Ht in Hl.
      destruct (lineage_head next) as [l E]. rewrite E in Hl. subst post.
      inversion Hpost; subst.
      apply (countdown_within 199 _ next); cbn [count stack].
      * now rewrite update_count_start by lia.
      * apply last_item_snoc.
      * rewrite E. cbn [tl]. eapply Forall_impl; [|eassumption].
        cbn. intros; lia.
  - cbn [app length Nat.add] in *.
    apply lineage_tail in Hl as (ps & Hp & Hl').
    rewrite (while_loop_unfold _ st top a ps) by (assumption || lia).
    inversion Hpre; subst.
    apply (IH _ a post); cbn [count stack]; try assumption.
    + rewrite update_count_inactive by lia. lia.
    + apply last_item_snoc.
    + now rewrite Hl'.
Qed.

(** The reference time is never crossed: the countdown never starts and the
    loop ends in a failed lookup of [parents[0]] at the root. *)
Lemma never_crossed (n : nat) :
  forall (st : state) (top : Commit),
  count st < 0 -> last_item (stack st) = Ok top ->
  Forall (fun a => T <= committed_datetime a) (tl (lineage top)) ->
  (depth top < n)%nat ->
  while_loop n T st = Raise IndexError.
Proof.
  induction n as [|n IH]; intros st top Hc Htop Hall Hd; [lia|].
  destruct (parents top) as [|next ps] eqn:Hp.
  - apply while_loop_at_root with top; (assumption || lia).
  - rewrite (while_loop_unfold _ st top next ps) by (assumption || lia).
    destruct (lineage_tail_parent _ _ _ Hp) as [Ht Hdp]. rewrite Ht in Hall.
    destruct (lineage_head next) as [l E]. rewrite E in Hall.
    inversion Hall; subst.
    apply (IH _ next); cbn [count stack].
    + rewrite update_count_inactive by lia. lia.
    + apply last_item_snoc.
    + now rewrite E.
    + lia.
Qed.

(** A running countdown of [c] over [c] commits that neither re-open the
    window nor are later than [stack[0]] appends them all and stops. *)
Lemma countdown_run (c : nat) :
  forall (st : state) (top s0 : Commit) (r run rest : list Commit),
  stack st = s0 :: r -> last_item (stack st) = Ok top ->
  count st = Z.of_nat c ->
  tl (lineage top) = run ++ rest -> length run = c ->
  Forall (fun a => committed_datetime a <= T /\
                   committed_datetime a <= committed_datetime s0) run ->
  while_loop (S c) T st = Ok (mkState (stack st ++ run) (ooo_commits st) 0).
Proof.
  induction c as [|c IH]; intros st top s0 r run rest Hs Htop Hc Hl Hlen Hall.
  - rewrite while_loop_stop by assumption.
    destruct run; [|discriminate]. rewrite app_nil_r.
    destruct st; cbn in *. now subst.
  - destruct run as [|a run]; [discriminate|].
    cbn [app] in Hl. apply lineage_tail in Hl as (ps & Hp & Hl').
    inversion Hall as [|? ? [Ha1 Ha2] Hall']; subst.
    rewrite (while_loop_unfold _ st top a ps) by (assumption || lia).
    rewrite evict_spec, Hs.
    replace (_ >? _) with false by (symmetry; lia). cbn [fst snd].
    rewrite (IH _ a s0 (r ++ [a]) run rest); cbn [stack ooo_commits count].
    + now rewrite <- app_assoc.
    + reflexivity.
    + apply (last_item_snoc (s0 :: r)).
    + rewrite update_count_running by lia. lia.
    + now rewrite Hl'.
    + cbn in Hlen. lia.
    + exact Hall'.
Qed.

End Countdown.

(** ** The search as a whole *)

Lemma ooo_loop_cases (n : nat) (c : Commit) (T : Z) :
  (exists r, ooo_loop n c T = Ok r) \/ ooo_loop n c T = Raise IndexError.
Proof.
  revert c. induction n as [|n IH]; intros c; cbn [ooo_loop]; [eauto|].
  destruct (parents c) as [|p ps]; cbn [bind first_item]; [now right|].
  destruct (_ >? _); eauto.
Qed.

Lemma IsOutOfOrder_cases (c : Commit) :
  (exists b, IsOutOfOrder c = Ok b) \/ IsOutOfOrder c = Raise IndexError.
Proof.
  unfold IsOutOfOrder.
  destruct (ooo_loop_cases 200 c (committed_datetime c)) as [[r ->]| ->];
    cbn [bind]; eauto.
Qed.

(** The search always ends: with a pair of commits or with an exception. *)
Lemma find_closest_commits_total (args : Args) (repo : Repo)
    (target_commit : Commit) (branch : string) :
  find_closest_commits args repo target_commit branch <> OutOfFuel.
Proof.
  unfold find_closest_commits.
  destruct (IsOutOfOrder_cases target_commit) as [[b ->]| ->];
    cbn [bind]; [|discriminate].
  destruct (resolve_tip repo branch) as [tip| |] eqn:Hr; cbn [bind];
    try discriminate.
  - assert (Hb := BuildCandidates_total tip (committed_datetime target_commit)).
    destruct (BuildCandidates _ _) as [st| |]; cbn [bind];
      [|discriminate|contradiction].
    unfold SelectClosest. rewrite closest_pair_spec.
    destruct (sort_by _ _); discriminate.
  - unfold resolve_tip in Hr. destruct (String.eqb _ _); [discriminate|].
    destruct (commit repo branch); discriminate.
Qed.

(** ** Properties of the specification *)

(** C5.  The lineage check returns true as soon as an ancestor reached by
    first-parent steps is strictly later than the commit itself: when the
    ancestors [pre] before it are not later and it is among the first 200,
    the check answers true after [length pre + 1] parent lookups.  In
    particular a commit whose direct parent is later gets the answer true
    after exactly one lookup. *)
Theorem IsOutOfOrder_first_inversion (c : Commit) :
  (forall (pre post : list Commit) (a : Commit),
     tl (lineage c) = pre ++ a :: post ->
     Forall (fun b => committed_datetime b <= committed_datetime c) pre ->
     committed_datetime a > committed_datetime c ->
     (length pre < 200)%nat ->
     IsOutOfOrder c = Ok true /\ ooo_steps c = Ok (S (length pre))) /\
  (forall (p : Commit) (ps : list Commit),
     parents c = p :: ps ->
     committed_datetime p > committed_datetime c ->
     IsOutOfOrder c = Ok true /\ ooo_steps c = Ok 1%nat).
Proof.
  assert (G : forall (pre post : list Commit) (a : Commit),
     tl (lineage c) = pre ++ a :: post ->
     Forall (fun b => committed_datetime b <= committed_datetime c) pre ->
     committed_datetime a > committed_datetime c ->
     (length pre < 200)%nat ->
     IsOutOfOrder c = Ok true /\ ooo_steps c = Ok (S (length pre))).
  { intros pre post a Hl Hpre Ha Hlen.
    unfold IsOutOfOrder, ooo_steps.
    rewrite (ooo_loop_finds _ pre 200 c a post Hl Hpre Ha Hlen).
    cbn [bind fst snd]. split; [reflexivity|]. f_equal. lia. }
  split; [exact G|].
  intros p ps Hp Hlater.
  destruct (lineage_tail_parent _ _ _ Hp) as [Ht _].
  destruct (lineage_head p) as [l Hl].
  apply (G [] l p); [now rewrite Ht, Hl | constructor | exact Hlater |].
  cbn. lia.
Qed.

Lemma IsOutOfOrder_first_inversion_witness :
  IsOutOfOrder (mkCommit "c" 5 [mkCommit "p" 7 []]) = Ok true /\
  ooo_steps (mkCommit "c" 5 [mkCommit "p" 7 []]) = Ok 1%nat.
Proof.
  apply (proj2 (IsOutOfOrder_first_inversion
                  (mkCommit "c" 5 [mkCommit "p" 7 []]))
           (mkCommit "p" 7 []) []).
  - reflexivity.
  - cbn. lia.
Defined.

(** C2, as the specification states it, fails: a target commit whose only
    ancestor is an older root makes the lineage check raise, and a history
    of three commits none of which is earlier than the reference time makes
    the traversal raise at its root; the search raises with them. *)
Lemma root_reached_raises :
  IsOutOfOrder (linear_history 1 10 5) = Raise IndexError /\
  BuildCandidates (linear_history 2 10 5) 0 = Raise IndexError /\
  find_closest_commits no_flags (repo_at (linear_history 2 10 5))
    (linear_history 1 10 5) "master" = Raise IndexError.
Proof. repeat split; reflexivity. Qed.

(** C2, amended.  The root of history is not a terminal condition of the
    search but a failed lookup of [parents[0]].  The lineage check raises
    [IndexError] when it reaches the root before 200 steps with no
    inversion found, and the search raises with it; it answers false when
    200 steps find no later ancestor.  A traversal that never meets a
    commit earlier than the reference time walks to the root and raises
    [IndexError] there, and so does the search when the tip resolves. *)
Theorem root_raises_IndexError :
  (forall c : Commit,
     Forall (fun b => committed_datetime b <= committed_datetime c)
       (tl (lineage c)) ->
     (depth c < 200)%nat ->
     IsOutOfOrder c = Raise IndexError /\
     forall args repo branch,
       find_closest_commits args repo c branch = Raise IndexError) /\
  (forall c : Commit,
     Forall (fun b => committed_datetime b <= committed_datetime c)
       (firstn 200 (tl (lineage c))) ->
     (200 <= depth c)%nat ->
     IsOutOfOrder c = Ok false) /\
  (forall (tip : Commit) (T : Z),
     Forall (fun a => T <= committed_datetime a) (tl (lineage tip)) ->
     BuildCandidates tip T = Raise IndexError) /\
  (forall args repo target_commit branch tip,
     resolve_tip repo branch = Ok tip ->
     Forall (fun a => committed_datetime target_commit <= committed_datetime a)
       (tl (lineage tip)) ->
     find_closest_commits args repo target_commit branch = Raise IndexError).
Proof.
  assert (B : forall (tip : Commit) (T : Z),
     Forall (fun a => T <= committed_datetime a) (tl (lineage tip)) ->
     BuildCandidates tip T = Raise IndexError).
  { intros tip T Hall. unfold BuildCandidates.
    apply never_crossed with tip; cbn; (assumption || reflexivity || lia). }
  repeat split.
  - unfold IsOutOfOrder. now rewrite ooo_loop_root.
  - intros args repo branch. unfold find_closest_commits, IsOutOfOrder.
    now rewrite ooo_loop_root.
  - intros c Hall Hd. unfold IsOutOfOrder.
    now rewrite ooo_loop_exhausted.
  - exact B.
  - intros args repo target_commit branch tip Hr Hall.
    unfold find_closest_commits.
    destruct (IsOutOfOrder_cases target_commit) as [[b ->]| ->];
      cbn [bind]; [|reflexivity].
    rewrite Hr. cbn [bind]. now rewrite B.
Qed.

Lemma root_raises_IndexError_witness :
  IsOutOfOrder (linear_history 3 100 10) = Raise IndexError /\
  IsOutOfOrder (orderly_target 100) = Ok false /\
  BuildCandidates (linear_history 3 100 10) 50 = Raise IndexError.
Proof.
  destruct root_raises_IndexError as (H1 & H2 & H3 & _).
  split; [|split].
  - apply H1; [|cbn; lia].
    apply (Forall_of_forallb (fun b => committed_datetime b <=? 100));
      [intros x; cbn; lia | reflexivity].
  - apply H2; [|vm_compute; lia].
    apply (Forall_of_forallb (fun b => committed_datetime b <=? 100));
      [intros x; cbn; lia | vm_compute; reflexivity].
  - apply H3.
    apply (Forall_of_forallb (fun a => 50 <=? committed_datetime a));
      [intros x; lia | reflexivity].
Defined.

(** C9.  When the traversal ends, no commit is both on the stack and among
    the anomalies: the two lists together hold each commit of the tip's
    first-parent chain down to the last one visited exactly once, and
    nothing else. *)
Theorem BuildCandidates_disjoint (tip : Commit) (T : Z) (st : state) :
  BuildCandidates tip T = Ok st ->
  (forall c, In c (stack st) -> ~ In c (ooo_commits st)) /\
  NoDup (stack st ++ ooo_commits st) /\
  Permutation (stack st ++ ooo_commits st)
    (firstn (length (stack st) + length (ooo_commits st)) (lineage tip)).
Proof.
  intros H.
  assert (Hc : covers tip st)
    by exact (covers_while tip T _ _ _ (covers_init tip) H).
  assert (Hn := covers_NoDup tip st Hc).
  split; [|split].
  - intros c. now apply NoDup_app_disjoint.
  - exact Hn.
  - now apply covers_prefix.
Qed.

Lemma BuildCandidates_disjoint_witness :
  let st := final_state (BuildCandidates evicted_tip 950) in
  BuildCandidates evicted_tip 950 = Ok st /\
  ooo_commits st = [evicted_tip] /\
  (forall c, In c (stack st) -> ~ In c (ooo_commits st)) /\
  NoDup (stack st ++ ooo_commits st).
Proof.
  intros st.
  assert (E : BuildCandidates evicted_tip 950 = Ok st)
    by (vm_compute; reflexivity).
  split; [exact E|]. split; [vm_compute; reflexivity|].
  destruct (BuildCandidates_disjoint evicted_tip 950 st E) as (H1 & H2 & _).
  split; [exact H1 | exact H2].
Defined.

(** The first iteration on a tip whose parent is later. *)
Lemma first_step_evicts (T : Z) (tip p : Commit) (ps : list Commit) :
  parents tip = p :: ps ->
  committed_datetime p > committed_datetime tip ->
  loop_body T (init_state tip) =
  Ok (mkState [p] [tip] (update_count T p (-1))).
Proof.
  intros Hp Hlater.
  rewrite (loop_body_step T (init_state tip) tip p ps eq_refl Hp).
  cbn [init_state stack ooo_commits count]. rewrite evict_spec.
  now replace (_ >? _) with true by (symmetry; lia).
Qed.

Lemma tip_stays_evicted (T : Z) (tip p : Commit) (ps : list Commit)
    (st : state) :
  parents tip = p :: ps ->
  committed_datetime p > committed_datetime tip ->
  BuildCandidates tip T = Ok st ->
  In tip (ooo_commits st) /\ ~ In tip (stack st).
Proof.
  intros Hp Hlater H.
  assert (Hc : covers tip st)
    by exact (covers_while tip T _ _ _ (covers_init tip) H).
  assert (Hin : In tip (ooo_commits st)).
  { unfold BuildCandidates in H. cbn [while_loop] in H.
    change (count (init_state tip) =? 0) with false in H.
    rewrite (first_step_evicts T tip p ps Hp Hlater) in H. cbn [bind] in H.
    apply (ooo_kept_while T _ _ _ tip) in H; [exact H|]. now left. }
  split; [exact Hin|].
  intros Hs. exact (NoDup_app_disjoint _ _ tip (covers_NoDup tip st Hc) Hs Hin).
Qed.

(** C10.  When the first parent of the searched tip is strictly later than
    the tip, the first iteration moves the tip from the stack to the
    anomalies, where it stays; so a search that does not merge the
    anomalies back (the target commit is not out of order and
    [--search-out-of-order] is not given) returns the tip neither as best
    nor as second best. *)
Theorem tip_evicted_never_selected (args : Args) (repo : Repo)
    (target_commit : Commit) (branch : string) (tip p : Commit)
    (ps : list Commit) :
  resolve_tip repo branch = Ok tip ->
  parents tip = p :: ps ->
  committed_datetime p > committed_datetime tip ->
  (forall T, loop_body T (init_state tip) =
             Ok (mkState [p] [tip] (update_count T p (-1)))) /\
  (forall T st, BuildCandidates tip T = Ok st ->
                In tip (ooo_commits st) /\ ~ In tip (stack st)) /\
  (IsOutOfOrder target_commit = Ok false ->
   search_out_of_order args = false ->
   forall best second,
     find_closest_commits args repo target_commit branch = Ok (best, second) ->
     best <> tip /\ second <> Some tip).
Proof.
  intros Hr Hp Hlater. split; [|split].
  - intros T. now apply first_step_evicts with ps.
  - intros T st. now apply tip_stays_evicted with p ps.
  - intros Hooo Hflag best second H.
    unfold find_closest_commits in H. rewrite Hooo, Hr, Hflag in H.
    cbn [bind andb] in H.
    apply bind_Ok in H as (st & Hb & Hsel).
    destruct (tip_stays_evicted _ tip p ps st Hp Hlater Hb) as [_ Hout].
    apply SelectClosest_In in Hsel as [Hbest Hsecond].
    unfold candidate_list, merge_anomalies in *.
    split.
    + intros ->. now apply apply_policy_In in Hbest.
    + intros ->. specialize (Hsecond tip eq_refl).
      now apply apply_policy_In in Hsecond.
Qed.

Lemma tip_evicted_never_selected_witness :
  exists best second,
    find_closest_commits no_flags
      (repo_at (mkCommit "tip" 900 [linear_history 250 1000 1]))
      (orderly_target 950) "master" = Ok (best, second) /\
    best <> mkCommit "tip" 900 [linear_history 250 1000 1] /\
    second <> Some (mkCommit "tip" 900 [linear_history 250 1000 1]).
Proof.
  destruct (find_closest_commits no_flags
      (repo_at (mkCommit "tip" 900 [linear_history 250 1000 1]))
      (orderly_target 950) "master") as [[best second]| |] eqn:E;
    [|vm_compute in E; discriminate..].
  exists best, second. split; [reflexivity|].
  refine (proj2 (proj2 (tip_evicted_never_selected no_flags
      (repo_at (mkCommit "tip" 900 [linear_history 250 1000 1]))
      (orderly_target 950) "master"
      (mkCommit "tip" 900 [linear_history 250 1000 1])
      (linear_history 250 1000 1) [] _ _ _)) _ _ best second E).
  - reflexivity.
  - reflexivity.
  - cbn. lia.
  - vm_compute. reflexivity.
  - reflexivity.
Defined.

(** C7.  Whatever the selector returns under [--always-after] is committed
    at or after the reference time, and whatever it returns under
    [--always-before] alone is committed strictly before it.  The two
    filters are never applied together: with [--always-after] given,
    [--always-before] changes nothing. *)
Theorem SelectClosest_policy (stk ooo : list Commit) (T : Z)
    (target_ooo : bool) (args : Args) (best : Commit)
    (second : option Commit) :
  SelectClosest stk ooo T target_ooo args = Ok (best, second) ->
  (always_after args = true ->
   T <= committed_datetime best /\
   forall s, second = Some s -> T <= committed_datetime s) /\
  (always_after args = false -> always_before args = true ->
   committed_datetime best < T /\
   forall s, second = Some s -> committed_datetime s < T) /\
  (forall o b,
     SelectClosest stk ooo T target_ooo (mkArgs o true b) =
     SelectClosest stk ooo T target_ooo (mkArgs o true false)).
Proof.
  intros H. apply SelectClosest_In in H as [Hbest Hsecond].
  unfold candidate_list, apply_policy in *.
  split; [|split].
  - intros Ha. rewrite Ha in *. split.
    + apply filter_In in Hbest as [_ Hb]. lia.
    + intros s E. specialize (Hsecond s E).
      apply filter_In in Hsecond as [_ Hs]. lia.
  - intros Ha Hb. rewrite Ha, Hb in *. split.
    + apply filter_In in Hbest as [_ Hb']. lia.
    + intros s E. specialize (Hsecond s E).
      apply filter_In in Hsecond as [_ Hs]. lia.
  - reflexivity.
Qed.

Lemma SelectClosest_policy_witness :
  100 <= committed_datetime (mkCommit "b" 120 []) /\
  committed_datetime (mkCommit "c" 90 []) < 100.
Proof.
  split.
  - exact (proj1 (proj1 (SelectClosest_policy
        [mkCommit "a" 130 []; mkCommit "b" 120 []; mkCommit "c" 90 []] []
        100 false (mkArgs false true false)
        (mkCommit "b" 120 []) (Some (mkCommit "a" 130 [])) eq_refl)
        eq_refl)).
  - exact (proj1 (proj1 (proj2 (SelectClosest_policy
        [mkCommit "a" 130 []; mkCommit "b" 120 []; mkCommit "c" 90 []] []
        100 false (mkArgs false false true)
        (mkCommit "c" 90 []) None eq_refl))
        eq_refl eq_refl)).
Defined.

(** C8.  Merging the anomalies in never makes the best commit worse: when
    the candidates alone leave a best commit, the candidates followed by
    the anomalies leave one too, and its absolute time distance to the
    reference time is no larger.  Without a one-sided filter this is the
    case for every non-empty candidate list. *)
Theorem anomalies_never_worse (stk ooo : list Commit) (T : Z) (args : Args) :
  apply_policy args T stk <> [] ->
  exists best1 second1 best2 second2,
    SelectClosest stk ooo T false args = Ok (best1, second1) /\
    SelectClosest stk ooo T true args = Ok (best2, second2) /\
    distance T best2 <= distance T best1.
Proof.
  intros Hne. unfold SelectClosest, candidate_list, merge_anomalies.
  rewrite apply_policy_app, !closest_pair_spec.
  destruct (sort_by (distance T) (apply_policy args T stk))
    as [|b1 r1] eqn:E1.
  { apply (f_equal (@length _)) in E1. rewrite sort_by_length in E1.
    destruct (apply_policy args T stk); [now elim Hne | discriminate]. }
  destruct (sort_by (distance T)
              (apply_policy args T stk ++ apply_policy args T ooo))
    as [|b2 r2] eqn:E2.
  { apply (f_equal (@length _)) in E2.
    rewrite sort_by_length, length_app in E2.
    destruct (apply_policy args T stk); [now elim Hne | discriminate]. }
  exists b1, (nth_error (b1 :: r1) 1), b2, (nth_error (b2 :: r2) 1).
  repeat split.
  apply sort_by_head in E1 as [Hin _]. apply sort_by_head in E2 as [_ Hmin].
  apply Hmin, in_or_app. now left.
Qed.

Lemma anomalies_never_worse_witness :
  exists best1 second1 best2 second2,
    SelectClosest [mkCommit "a" 130 []; mkCommit "b" 80 []]
      [mkCommit "c" 105 []] 100 false no_flags = Ok (best1, second1) /\
    SelectClosest [mkCommit "a" 130 []; mkCommit "b" 80 []]
      [mkCommit "c" 105 []] 100 true no_flags = Ok (best2, second2) /\
    distance 100 best2 <= distance 100 best1.
Proof.
  apply (anomalies_never_worse
           [mkCommit "a" 130 []; mkCommit "b" 80 []]
           [mkCommit "c" 105 []] 100 no_flags).
  cbn. discriminate.
Defined.

(** The traversal of a history that crosses the reference time once: [pre]
    are the commits from the tip on that are not earlier than [T], [x] is
    the first earlier one and every commit of [post] below it is earlier
    too. *)
Lemma crossing_within (T : Z) (tip x : Commit) (pre post : list Commit) :
  lineage tip = pre ++ x :: post ->
  Forall (fun a => T <= committed_datetime a) pre ->
  committed_datetime x < T ->
  Forall (fun a => committed_datetime a < T) post ->
  while_loop (Nat.max 201 (length pre + 200)) T (init_state tip)
    <> OutOfFuel.
Proof.
  intros Hl Hpre Hx Hpost. destruct (lineage_head tip) as [l E].
  rewrite E in Hl. destruct pre as [|a pre]; cbn [app length] in *.
  - injection Hl as <- <-.
    apply (inactive_within T [] _ tip l);
      first [assumption | reflexivity | constructor | now rewrite E
            | cbn; lia].
  - injection Hl as <- ->. inversion Hpre; subst.
    replace (Nat.max 201 (S (length pre) + 200)) with (S (length pre + 200))
      by lia.
    apply (inactive_within T pre _ tip (x :: post));
      first [assumption | reflexivity | now constructor | now rewrite E
            | cbn; lia].
Qed.

(** C6.  The countdown bounds the traversal.  The counter starts inactive
    (negative) and stays so while the commits reached are not earlier than
    the reference time; the first earlier commit sets it to 200, and every
    iteration takes one off; a commit later than the reference time met
    while it runs makes it inactive again; the loop stops when it is zero.
    So in a history whose first commit earlier than the reference time has
    index [k] on the first-parent chain (the tip has index 0) and whose
    commits below it are all earlier, the traversal ends within [k + 200]
    iterations, each of which looks up one parent; the tip included it
    holds at most [k + 201] commits, and at most [k + 200] when the tip
    itself is not earlier than the reference time. *)
Theorem countdown_window (T : Z) :
  (forall tip, count (init_state tip) = -1) /\
  (forall st st', loop_body T st = Ok st' ->
     exists next, last_item (stack st') = Ok next /\
                  count st' = update_count T next (count st)) /\
  (forall next c, c < 0 -> T <= committed_datetime next ->
     update_count T next c = c - 1) /\
  (forall next c, c < 0 -> committed_datetime next < T ->
     update_count T next c = 200 - 1) /\
  (forall next c, 0 < c -> committed_datetime next <= T ->
     update_count T next c = c - 1) /\
  (forall next c, 0 < c -> T < committed_datetime next ->
     update_count T next c = -1 - 1) /\
  (forall n st, count st = 0 -> while_loop (S n) T st = Ok st) /\
  (forall (tip x : Commit) (pre post : list Commit),
     lineage tip = pre ++ x :: post ->
     Forall (fun a => T <= committed_datetime a) pre ->
     committed_datetime x < T ->
     Forall (fun a => committed_datetime a < T) post ->
     while_loop (S (length pre + 200)) T (init_state tip)
       = BuildCandidates tip T /\
     BuildCandidates tip T <> OutOfFuel /\
     forall st, BuildCandidates tip T = Ok st ->
       (length (stack st) + length (ooo_commits st)
          <= S (length pre + 200))%nat /\
       (pre <> [] ->
        (length (stack st) + length (ooo_commits st)
           <= length pre + 200)%nat)).
Proof.
  split; [reflexivity|]. split.
  { intros st st' H.
    apply loop_body_Ok in H as (top & next & ps & _ & _ & ->).
    exists next. cbn [stack count]. split; [apply last_item_snoc|reflexivity]. }
  split; [apply update_count_inactive|].
  split; [apply update_count_start|].
  split; [apply update_count_running|].
  split; [apply update_count_reset|].
  split; [apply while_loop_stop|].
  intros tip x pre post Hl Hpre Hx Hpost.
  assert (W := crossing_within T tip x pre post Hl Hpre Hx Hpost).
  assert (F := BuildCandidates_fuel tip T _ W).
  split; [|split].
  - apply BuildCandidates_fuel.
    rewrite (while_loop_more T (Nat.max 201 (length pre + 200))
               (S (length pre + 200)) _ W) by lia.
    exact W.
  - apply BuildCandidates_total.
  - intros st H. rewrite <- F in H. apply while_loop_length in H.
    cbn [init_state stack ooo_commits length] in H.
    split; [lia|]. intros Hne. destruct pre; [now elim Hne|].
    cbn [length] in *. lia.
Qed.

Lemma countdown_window_witness :
  while_loop (S (11 + 200)) 990 (init_state (linear_history 300 1000 1))
    = BuildCandidates (linear_history 300 1000 1) 990 /\
  BuildCandidates (linear_history 300 1000 1) 990 <> OutOfFuel.
Proof.
  destruct (proj2 (proj2 (proj2 (proj2 (proj2 (proj2 (proj2
              (countdown_window 990)))))))
            (linear_history 300 1000 1) (linear_history 289 989 1)
            (firstn 11 (lineage (linear_history 300 1000 1)))
            (skipn 12 (lineage (linear_history 300 1000 1))))
    as (H1 & H2 & _).
  - vm_compute. reflexivity.
  - apply (Forall_of_forallb (fun a => 990 <=? committed_datetime a));
      [intros a; lia | vm_compute; reflexivity].
  - cbn. lia.
  - apply (Forall_of_forallb (fun a => committed_datetime a <? 990));
      [intros a; lia | vm_compute; reflexivity].
  - split; [exact H1 | exact H2].
Defined.

(** ** The scenario of the specification *)

Lemma filter_all {A : Type} (f : A -> bool) (l : list A) :
  Forall (fun a => f a = true) l -> filter f l = l.
Proof.
  induction 1 as [|a l Ha _ IH]; [reflexivity|].
  cbn [filter]. now rewrite Ha, IH.
Qed.

Lemma while_loop_next (T : Z) (n : nat) (st st' : state) :
  count st <> 0 -> loop_body T st = Ok st' ->
  while_loop (S n) T st = while_loop n T st'.
Proof.
  intros Hc H. cbn [while_loop].
  now rewrite (proj2 (Z.eqb_neq _ _) Hc), H.
Qed.

Section Scenario.
Variables (p : Commit) (ps : list Commit).

Let T : Z := jan_2024 10 12.
Let c15 : Commit := commit_15 (p :: ps).
Let c09 : Commit := commit_09 (p :: ps).
Let c08 : Commit := commit_08 (p :: ps).
Let below : list Commit := firstn 198 (lineage p).

Hypothesis deep : (197 <= depth p)%nat.
Hypothesis older : Forall (fun a => committed_datetime a < jan_2024 8 0) below.

Lemma scenario_build :
  BuildCandidates c15 T = Ok (mkState ([c15; c09] ++ c08 :: below) [] 0).
Proof.
  assert (W : while_loop 201 T (init_state c15)
              = Ok (mkState ([c15; c09] ++ c08 :: below) [] 0)).
  { assert (S1 : loop_body T (init_state c15)
                 = Ok (mkState [c15; c09] [] 199)) by reflexivity.
    assert (N : count (init_state c15) <> 0) by discriminate.
    rewrite (while_loop_next T 200 _ _ N S1).
    apply (countdown_run T 199 (mkState [c15; c09] [] 199) c09 c15 [c09]
             (c08 :: below)
             (skipn 198 (lineage p))); try reflexivity.
    - change (tl (lineage c09)) with (c08 :: lineage p).
      cbn [app]. f_equal. symmetry. apply firstn_skipn.
    - cbn [length]. f_equal. unfold below. rewrite length_firstn.
      rewrite lineage_length. lia.
    - constructor; [cbn; lia|].
      eapply Forall_impl; [|exact older].
      intros a Ha. cbn in *. lia. }
  rewrite <- (BuildCandidates_fuel c15 T 201); [exact W|].
  rewrite W. discriminate.
Qed.

Lemma scenario_sort_below :
  sort_by (distance T) (c08 :: below) = c08 :: sort_by (distance T) below.
Proof.
  cbn [sort_by]. apply insert_by_least.
  apply (Permutation_Forall
           (Permutation_sym (sort_by_Permutation (distance T) below))).
  eapply Forall_impl; [|exact older].
  intros a Ha. unfold distance. cbn in *. lia.
Qed.

Lemma scenario_filter_below :
  filter (fun c => committed_datetime c <? T) below = below.
Proof.
  apply filter_all. eapply Forall_impl; [|exact older].
  intros a Ha. cbn in *. lia.
Qed.

Lemma scenario_select (target_ooo : bool) (args : Args) :
  always_after args = false ->
  SelectClosest ([c15; c09] ++ c08 :: below) [] T target_ooo args
  = Ok (c09, Some c08).
Proof.
  intros Ha. unfold SelectClosest, candidate_list, merge_anomalies.
  replace (if target_ooo then _ else _) with (c15 :: c09 :: c08 :: below)
    by (destruct target_ooo; [now rewrite app_nil_r | reflexivity]).
  unfold apply_policy. rewrite Ha. destruct (always_before args).
  - cbn [filter]. rewrite scenario_filter_below.
    change (committed_datetime c15 <? T) with false.
    change (committed_datetime c09 <? T) with true.
    change (committed_datetime c08 <? T) with true. cbv iota.
    change (sort_by (distance T) (c09 :: c08 :: below))
      with (insert_by (distance T) c09
              (sort_by (distance T) (c08 :: below))).
    rewrite scenario_sort_below. reflexivity.
  - change (sort_by (distance T) (c15 :: c09 :: c08 :: below))
      with (insert_by (distance T) c15
              (insert_by (distance T) c09
                 (sort_by (distance T) (c08 :: below)))).
    rewrite scenario_sort_below. reflexivity.
Qed.

End Scenario.




(** ** The stack is bounded by its first entry, not sorted *)

(** What the eviction test of line 146 does maintain: no commit on the stack
    is later than [stack[0]]. *)
Lemma bounded_by_first_step (T : Z) (st st' : state) :
  bounded_by_first (stack st) -> loop_body T st = Ok st' ->
  bounded_by_first (stack st').
Proof.
  intros Hall H. apply loop_body_Ok in H as (top & next & ps & Htop & _ & ->).
  cbn [stack]. rewrite evict_spec.
  destruct (stack st) as [|s0 r]; [discriminate|].
  destruct (_ >? _) eqn:E; cbn [fst].
  - repeat constructor. lia.
  - unfold bounded_by_first in *. cbn [app]. rewrite app_comm_cons.
    apply Forall_app. split; [exact Hall|]. repeat constructor. lia.
Qed.

Lemma BuildCandidates_bounded_by_first (tip : Commit) (T : Z) (st : state) :
  BuildCandidates tip T = Ok st -> bounded_by_first (stack st).
Proof.
  unfold BuildCandidates.
  assert (H0 : bounded_by_first (stack (init_state tip)))
    by (repeat constructor; cbn; lia).
  revert H0. generalize (init_state tip), (S (depth tip)).
  intros st0 n. revert st0.
  induction n as [|n IH]; intros st0 H0 H; [discriminate|].
  cbn [while_loop] in H. destruct (count st0 =? 0); [congruence|].
  apply bind_Ok in H as (st1 & H1 & H2).
  eauto using bounded_by_first_step.
Qed.

(** C3.  The claim that every commit appended to the stack is no later than
    the one appended before it, so that the finished stack is non-increasing
    from the tip on, evaluated on the chain committed at 10, 5, 7, 4, 3, ...
    with reference time 6: the commit of time 7 is appended after the
    earlier commit of time 5, nothing is diverted to the anomalies, and the
    finished stack is not non-increasing. *)
Lemma inversion_left_on_stack :
  exists st,
    BuildCandidates inverted_tip 6 = Ok st /\
    map committed_datetime (firstn 4 (stack st)) = [10; 5; 7; 4] /\
    ooo_commits st = [] /\
    ~ non_increasing (stack st).
Proof.
  destruct (BuildCandidates inverted_tip 6) as [st| |] eqn:E;
    [|vm_compute in E; discriminate..].
  exists st. vm_compute in E. injection E as <-.
  repeat split.
  intros H.
  specialize (H 1%nat _ _ eq_refl eq_refl). cbn in H. lia.
Qed.

(** ** Further properties of the search *)

Section LaterOrNot.
Variable T : Z.

Lemma later_or_not (l : list Commit) :
  Forall (fun b => committed_datetime b <= T) l \/
  Exists (fun a => committed_datetime a > T) l.
Proof.
  induction l as [|x l [IH|IH]]; [left; constructor| |right; now constructor 2].
  destruct (Z_le_gt_dec (committed_datetime x) T);
    [left; now constructor | right; now constructor 1].
Qed.

Lemma later_and_not (l : list Commit) :
  Forall (fun b => committed_datetime b <= T) l ->
  Exists (fun a => committed_datetime a > T) l -> False.
Proof.
  intros HF HE. apply Exists_exists in HE as (a & Hin & Ha).
  rewrite Forall_forall in HF. specialize (HF a Hin). lia.
Qed.

(** The first commit of a list that is later than [T]. *)
Lemma first_later (l : list Commit) :
  Exists (fun a => committed_datetime a > T) l ->
  exists pre a post,
    l = pre ++ a :: post /\
    Forall (fun b => committed_datetime b <= T) pre /\
    committed_datetime a > T.
Proof.
  induction l as [|x l IH]; intros H; [inversion H|].
  destruct (Z_le_gt_dec (committed_datetime x) T) as [Hle|Hgt].
  - inversion H as [? ? Hx|? ? Hl]; subst; [lia|].
    destruct (IH Hl) as (pre & a & post & -> & Hpre & Ha).
    exists (x :: pre), a, post. repeat split; [now constructor | exact Ha].
  - exists [], x, l. repeat split; [constructor | exact Hgt].
Qed.

End LaterOrNot.

Lemma lineage_tail_length (c : Commit) : length (tl (lineage c)) = depth c.
Proof.
  assert (H := lineage_length c). destruct (lineage_head c) as [l E].
  rewrite E in *. cbn in *. lia.
Qed.

(** X1.  The lineage check looks at the first 200 first-parent ancestors of
    the commit and at nothing else.  It answers true exactly when one of
    them is committed later than the commit; false exactly when there are
    200 of them and none is later; and it raises [IndexError] exactly when
    the history has fewer than 200 ancestors and none is later. *)
Theorem IsOutOfOrder_characterised (c : Commit) :
  let later := fun a => committed_datetime a > committed_datetime c in
  let not_later := fun b => committed_datetime b <= committed_datetime c in
  (IsOutOfOrder c = Ok true <->
   Exists later (firstn 200 (tl (lineage c)))) /\
  (IsOutOfOrder c = Ok false <->
   (200 <= depth c)%nat /\ Forall not_later (firstn 200 (tl (lineage c)))) /\
  (IsOutOfOrder c = Raise IndexError <->
   (depth c < 200)%nat /\ Forall not_later (tl (lineage c))).
Proof.
  intros later not_later.
  set (l := firstn 200 (tl (lineage c))).
  assert (Hsub : forall P : Commit -> Prop,
             Forall P (tl (lineage c)) -> Forall P l).
  { intros P H. unfold l. rewrite <- (firstn_skipn 200 (tl (lineage c))) in H.
    now apply Forall_app in H. }
  assert (R : (IsOutOfOrder c = Ok true /\ Exists later l) \/
              (IsOutOfOrder c = Ok false /\
               (200 <= depth c)%nat /\ Forall not_later l) \/
              (IsOutOfOrder c = Raise IndexError /\
               (depth c < 200)%nat /\ Forall not_later (tl (lineage c)))).
  { destruct (later_or_not (committed_datetime c) l) as [HF|HE].
    - right. destruct (Nat.le_gt_cases 200 (depth c)) as [Hd|Hd].
      + left. repeat split; try assumption.
        unfold IsOutOfOrder. now rewrite ooo_loop_exhausted.
      + right. assert (El : l = tl (lineage c)).
        { unfold l. apply firstn_all2. rewrite lineage_tail_length. lia. }
        rewrite <- El. repeat split; try assumption.
        unfold IsOutOfOrder. rewrite ooo_loop_root; [reflexivity| |exact Hd].
        now rewrite <- El.
    - left. split; [|exact HE].
      destruct (first_later _ l HE) as (pre & a & post & El & Hpre & Ha).
      unfold IsOutOfOrder.
      rewrite (ooo_loop_finds (committed_datetime c) pre 200 c a
                 (post ++ skipn 200 (tl (lineage c)))); try assumption.
      + reflexivity.
      + etransitivity; [symmetry; apply (firstn_skipn 200)|]. fold l.
        rewrite El, <- app_assoc. reflexivity.
      + assert (Hlen : (length l <= 200)%nat) by apply firstn_le_length.
        rewrite El, length_app in Hlen. cbn in Hlen. lia. }
  destruct R as [[R HE]|[[R [Hd HF]]|[R [Hd HF]]]]; rewrite R;
    (split; [|split]); split; intros H;
    try discriminate H; try reflexivity; try assumption;
    try (split; assumption); exfalso.
  - destruct H as [_ H]. exact (later_and_not _ l H HE).
  - destruct H as [_ H]. exact (later_and_not _ l (Hsub _ H) HE).
  - exact (later_and_not _ l HF H).
  - destruct H as [H _]. lia.
  - exact (later_and_not _ l (Hsub _ HF) H).
  - destruct H as [H _]. lia.
Qed.

Section Traversal.
Variable T : Z.

Lemma update_count_progress (next : Commit) (c total : Z) :
  c <> 0 -> 1 <= total -> c < 0 \/ 201 <= c + total ->
  update_count T next c < 0 \/ 201 <= update_count T next c + (total + 1).
Proof.
  intros Hc Ht H. unfold update_count. rewrite !Z.gtb_ltb.
  destruct (Z.ltb_spec (committed_datetime next) T),
           (Z.ltb_spec c 0); cbn [andb];
    repeat match goal with
           | |- context [?a <? ?b] => destruct (Z.ltb_spec a b); cbn [andb]
           end; lia.
Qed.

(** The countdown reaches zero only on a commit that is not later than the
    reference time. *)
Lemma update_count_zero (next : Commit) (c : Z) :
  update_count T next c = 0 -> committed_datetime next <= T.
Proof.
  unfold update_count. rewrite !Z.gtb_ltb.
  destruct (Z.ltb_spec (committed_datetime next) T),
           (Z.ltb_spec c 0); cbn [andb];
    repeat match goal with
           | |- context [?a <? ?b] => destruct (Z.ltb_spec a b); cbn [andb]
           end; lia.
Qed.

Lemma last_item_length {A : Type} (l : list A) (x : A) :
  last_item l = Ok x -> (1 <= length l)%nat.
Proof. destruct l; [discriminate | cbn; lia]. Qed.

(** The loop ends only after 200 iterations in a row. *)
Lemma while_loop_counted (n : nat) :
  forall st st' : state,
  count st < 0 \/
  201 <= count st + Z.of_nat (length (stack st) + length (ooo_commits st)) ->
  while_loop n T st = Ok st' ->
  count st' = 0 /\
  (201 <= length (stack st') + length (ooo_commits st'))%nat.
Proof.
  induction n as [|n IH]; intros st st' Hinv H; [discriminate|].
  cbn [while_loop] in H. destruct (Z.eqb_spec (count st) 0) as [E|E].
  - injection H as <-. split; [exact E|lia].
  - apply bind_Ok in H as (st1 & H1 & H2). apply (IH st1); [|exact H2].
    assert (L := loop_body_length T _ _ H1).
    apply loop_body_Ok in H1 as (top & next & ps & Htop & _ & E1).
    apply last_item_length in Htop.
    replace (count st1) with (update_count T next (count st))
      by now rewrite E1.
    rewrite L, Nat2Z.inj_succ. unfold Z.succ.
    apply update_count_progress; [exact E | lia | exact Hinv].
Qed.

(** When the loop ends, the commit visited last is not later than [T]. *)
Lemma while_loop_last (n : nat) :
  forall st st' : state,
  (count st = 0 -> exists top, last_item (stack st) = Ok top /\
                               committed_datetime top <= T) ->
  while_loop n T st = Ok st' ->
  exists top, last_item (stack st') = Ok top /\ committed_datetime top <= T.
Proof.
  induction n as [|n IH]; intros st st' Hinv H; [discriminate|].
  cbn [while_loop] in H. destruct (Z.eqb_spec (count st) 0) as [E|E].
  - injection H as <-. auto.
  - apply bind_Ok in H as (st1 & H1 & H2). apply (IH st1); [|exact H2].
    apply loop_body_Ok in H1 as (top & next & ps & _ & _ & ->).
    cbn [count stack]. intros Hz. exists next.
    split; [apply last_item_snoc | now apply update_count_zero in Hz].
Qed.

Lemma splits_init (tip : Commit) : splits tip (init_state tip).
Proof.
  exists [], tip. cbn [init_state stack ooo_commits app].
  destruct (lineage_head tip) as [l E]. rewrite E. cbn [tl app].
  repeat split; try reflexivity.
  - repeat constructor. lia.
  - intros; constructor.
Qed.

Lemma splits_step (tip : Commit) (st st' : state) :
  splits tip st -> loop_body T st = Ok st' -> splits tip st'.
Proof.
  intros (gone & top & Htop & Hlin & Hperm & Hb & Hgone) H.
  apply loop_body_Ok in H as (top' & next & ps & Htop' & Hp & ->).
  assert (top' = top) as -> by congruence.
  destruct (lineage_tail_parent _ _ _ Hp) as [Ht _].
  destruct (lineage_head next) as [l Hl]. rewrite Ht, Hl in Hlin.
  cbn [stack ooo_commits]. rewrite evict_spec.
  destruct (stack st) as [|s0 r] eqn:Es; [discriminate|].
  specialize (Hgone s0 eq_refl). cbn [bounded_by_first] in Hb.
  destruct (Z.gtb_spec (committed_datetime next) (committed_datetime s0))
    as [Hgt|Hle]; cbn [fst snd].
  - exists (gone ++ s0 :: r), next. cbn [stack ooo_commits app]. repeat split.
    + rewrite Hl. cbn [tl]. rewrite Hlin, <- !app_assoc. reflexivity.
    + apply Permutation_app; [exact Hperm|].
      symmetry. apply Permutation_rev.
    + repeat constructor. lia.
    + intros ? [= <-]. apply Forall_app. split.
      * eapply Forall_impl; [|exact Hgone]. cbn. intros; lia.
      * eapply Forall_impl; [|exact Hb]. cbn. intros; lia.
  - exists gone, next. cbn [stack ooo_commits]. repeat split.
    + apply last_item_snoc.
    + rewrite Hl. cbn [tl]. rewrite Hlin, <- !app_assoc. reflexivity.
    + exact Hperm.
    + cbn [app bounded_by_first]. rewrite app_comm_cons.
      apply Forall_app. split; [exact Hb|]. repeat constructor. lia.
    + cbn [app]. intros ? [= <-]. exact Hgone.
Qed.

Lemma splits_while (tip : Commit) (n : nat) (st st' : state) :
  splits tip st -> while_loop n T st = Ok st' -> splits tip st'.
Proof.
  revert st. induction n as [|n IH]; intros st Hs H; [discriminate|].
  cbn [while_loop] in H. destruct (count st =? 0); [congruence|].
  apply bind_Ok in H as (st1 & H1 & H2). eauto using splits_step.
Qed.

End Traversal.

Lemma last_item_raise {A : Type} (l : list A) (e : exn) :
  last_item l = Raise e -> e = IndexError.
Proof.
  induction l as [|x l IH]; [now intros [= <-]|].
  destruct l; [discriminate | exact IH].
Qed.

Lemma loop_body_raise (T : Z) (st : state) (e : exn) :
  loop_body T st = Raise e -> e = IndexError.
Proof.
  unfold loop_body. destruct (last_item (stack st)) as [top|e'|] eqn:E;
    cbn [bind]; try discriminate.
  - destruct (parents top); cbn [bind first_item]; [now intros [= <-]|].
    now destruct (evict _ _ _ _).
  - intros [= <-]. now apply last_item_raise in E.
Qed.

Lemma while_loop_raise (T : Z) (n : nat) (st : state) (e : exn) :
  while_loop n T st = Raise e -> e = IndexError.
Proof.
  revert st. induction n as [|n IH]; intros st H; [discriminate|].
  cbn [while_loop] in H. destruct (count st =? 0); [discriminate|].
  destruct (loop_body T st) as [st1|e1|] eqn:E; cbn [bind] in H;
    try discriminate; [eauto|].
  injection H as <-. now apply loop_body_raise in E.
Qed.

(** X2.  The traversal always terminates, and in one of two ways: it raises
    [IndexError] at the root of the history, or it stops with the countdown
    at zero after at least 200 iterations, so with at least 201 commits in
    its two lists.  A branch with fewer than 201 first-parent commits can
    therefore never be searched. *)
Theorem BuildCandidates_outcome (tip : Commit) (T : Z) :
  (BuildCandidates tip T = Raise IndexError \/
   exists st, BuildCandidates tip T = Ok st /\
              count st = 0 /\
              (201 <= length (stack st) + length (ooo_commits st))%nat /\
              (200 <= depth tip)%nat) /\
  ((depth tip < 200)%nat -> BuildCandidates tip T = Raise IndexError).
Proof.
  assert (G : BuildCandidates tip T = Raise IndexError \/
   exists st, BuildCandidates tip T = Ok st /\
              count st = 0 /\
              (201 <= length (stack st) + length (ooo_commits st))%nat /\
              (200 <= depth tip)%nat).
  { destruct (BuildCandidates tip T) as [st|e|] eqn:E.
    - right. exists st. split; [reflexivity|].
      assert (Hc : covers tip st)
        by exact (covers_while tip T _ _ _ (covers_init tip) E).
      assert (I0 : count (init_state tip) < 0 \/
                   201 <= count (init_state tip)
                          + Z.of_nat (length (stack (init_state tip))
                                      + length (ooo_commits (init_state tip))))
        by (left; reflexivity).
      destruct (while_loop_counted T _ _ _ I0 E) as [H0 Hn].
      repeat split; try assumption.
      apply covers_prefix, Permutation_length in Hc.
      rewrite length_app, length_firstn, lineage_length in Hc. lia.
    - left. now rewrite (while_loop_raise _ _ _ _ E).
    - now destruct (BuildCandidates_total tip T). }
  split; [exact G|].
  intros Hd. destruct G as [G|(st & _ & _ & _ & G)]; [exact G | lia].
Qed.

Lemma BuildCandidates_outcome_witness :
  BuildCandidates (linear_history 150 1000 1) 990 = Raise IndexError.
Proof.
  apply (proj2 (BuildCandidates_outcome (linear_history 150 1000 1) 990)).
  vm_compute. lia.
Defined.

(** X3.  When the traversal ends, the stack is a run of consecutive commits
    of the first-parent chain, in chain order and ending with the commit
    visited last, and the anomalies are exactly the commits of the chain
    before that run.  No commit of the stack is later than its first one and
    every anomaly is strictly earlier than it: the first commit of the stack
    is the latest commit visited. *)
Theorem BuildCandidates_split (tip : Commit) (T : Z) (st : state) :
  BuildCandidates tip T = Ok st ->
  let k := length (ooo_commits st) in
  (exists rest, lineage tip = firstn k (lineage tip) ++ stack st ++ rest) /\
  Permutation (ooo_commits st) (firstn k (lineage tip)) /\
  (exists s0 r,
     stack st = s0 :: r /\
     Forall (fun c => committed_datetime c <= committed_datetime s0)
       (stack st) /\
     Forall (fun c => committed_datetime c < committed_datetime s0)
       (ooo_commits st)).
Proof.
  intros H k.
  destruct (splits_while T tip _ _ _ (splits_init tip) H)
    as (gone & top & Htop & Hlin & Hperm & Hb & Hgone).
  assert (Hk : firstn k (lineage tip) = gone).
  { unfold k. rewrite (Permutation_length Hperm), Hlin.
    now rewrite firstn_app, Nat.sub_diag, firstn_all, app_nil_r. }
  rewrite Hk. split; [eauto|]. split; [exact Hperm|].
  destruct (stack st) as [|s0 r]; [discriminate|].
  exists s0, r. repeat split; [exact Hb|].
  apply (Permutation_Forall (Permutation_sym Hperm)). now apply Hgone.
Qed.

Lemma BuildCandidates_split_witness :
  let st := final_state (BuildCandidates evicted_tip 950) in
  BuildCandidates evicted_tip 950 = Ok st /\
  ooo_commits st = [evicted_tip] /\
  (exists rest,
     lineage evicted_tip
     = firstn (length (ooo_commits st)) (lineage evicted_tip)
       ++ stack st ++ rest) /\
  Permutation (ooo_commits st)
    (firstn (length (ooo_commits st)) (lineage evicted_tip)) /\
  (exists s0 r,
     stack st = s0 :: r /\
     Forall (fun c => committed_datetime c <= committed_datetime s0)
       (stack st) /\
     Forall (fun c => committed_datetime c < committed_datetime s0)
       (ooo_commits st)).
Proof.
  intros st.
  assert (E : BuildCandidates evicted_tip 950 = Ok st)
    by (vm_compute; reflexivity).
  split; [exact E|]. split; [vm_compute; reflexivity|].
  exact (BuildCandidates_split evicted_tip 950 st E).
Defined.

(** X4.  One iteration of the traversal takes the first parent of the
    commit on top of the stack and either appends it to an unchanged stack
    (the parent is not later than the first commit of the stack) or moves
    the whole stack, last commit first, to the end of the anomalies and
    starts a new stack with the parent alone (the parent is later): a
    partial eviction never happens. *)
Theorem loop_body_all_or_nothing (T : Z) (st st' : state) :
  loop_body T st = Ok st' ->
  exists s0 r top next ps,
    stack st = s0 :: r /\
    last_item (stack st) = Ok top /\
    parents top = next :: ps /\
    count st' = update_count T next (count st) /\
    (committed_datetime next <= committed_datetime s0 ->
     stack st' = stack st ++ [next] /\ ooo_commits st' = ooo_commits st) /\
    (committed_datetime next > committed_datetime s0 ->
     stack st' = [next] /\
     ooo_commits st' = ooo_commits st ++ rev (stack st)).
Proof.
  intros H. apply loop_body_Ok in H as (top & next & ps & Htop & Hp & ->).
  cbn [stack ooo_commits count]. rewrite evict_spec.
  destruct (stack st) as [|s0 r] eqn:Es; [discriminate|].
  exists s0, r, top, next, ps.
  split; [reflexivity|]. split; [exact Htop|]. split; [exact Hp|].
  split; [reflexivity|].
  destruct (Z.gtb_spec (committed_datetime next) (committed_datetime s0));
    cbn [fst snd]; split; intros; try lia; now split.
Qed.

Lemma loop_body_all_or_nothing_witness :
  exists s0 r top next ps,
    [mkCommit "a" 5 []; mkCommit "b" 3 [mkCommit "c" 7 []]] = s0 :: r /\
    last_item [mkCommit "a" 5 []; mkCommit "b" 3 [mkCommit "c" 7 []]]
    = Ok top /\
    parents top = next :: ps /\
    -2 = update_count 6 next (-1) /\
    (committed_datetime next <= committed_datetime s0 ->
     [mkCommit "c" 7 []]
     = [mkCommit "a" 5 []; mkCommit "b" 3 [mkCommit "c" 7 []]] ++ [next] /\
     [mkCommit "b" 3 [mkCommit "c" 7 []]; mkCommit "a" 5 []] = []) /\
    (committed_datetime next > committed_datetime s0 ->
     [mkCommit "c" 7 []] = [next] /\
     [mkCommit "b" 3 [mkCommit "c" 7 []]; mkCommit "a" 5 []]
     = [] ++ rev [mkCommit "a" 5 []; mkCommit "b" 3 [mkCommit "c" 7 []]]).
Proof.
  exact (loop_body_all_or_nothing 6
           (mkState [mkCommit "a" 5 []; mkCommit "b" 3 [mkCommit "c" 7 []]]
              [] (-1))
           (mkState [mkCommit "c" 7 []]
              [mkCommit "b" 3 [mkCommit "c" 7 []]; mkCommit "a" 5 []] (-2))
           eq_refl).
Defined.

Lemma apply_policy_NoDup (args : Args) (T : Z) (l : list Commit) :
  NoDup l -> NoDup (apply_policy args T l).
Proof.
  intros H. unfold apply_policy.
  destruct (always_after args); [|destruct (always_before args)];
    auto using NoDup_filter.
Qed.

(** X5.  The selector ranks by distance: best is a candidate at the least
    absolute distance from the reference time, and second best is another
    entry of the candidate list, at the least distance among the entries
    other than best; no second best means that best was the only
    candidate. *)
Theorem SelectClosest_ranking (stk ooo : list Commit) (T : Z)
    (target_ooo : bool) (args : Args) (best : Commit)
    (second : option Commit) :
  SelectClosest stk ooo T target_ooo args = Ok (best, second) ->
  let l := candidate_list stk ooo T target_ooo args in
  In best l /\
  (forall c, In c l -> distance T best <= distance T c) /\
  match second with
  | Some s =>
      exists others,
        Permutation l (best :: s :: others) /\
        distance T best <= distance T s /\
        Forall (fun c => distance T s <= distance T c) others
  | None => l = [best]
  end.
Proof.
  intros H l. unfold SelectClosest in H. fold l in H.
  rewrite closest_pair_spec in H.
  assert (Hs := sort_by_sorted (distance T) l).
  assert (Hp := sort_by_Permutation (distance T) l).
  destruct (sort_by (distance T) l) as [|b r] eqn:E; [discriminate|].
  injection H as -> <-.
  destruct (sort_by_head _ _ _ _ E) as [Hin Hmin].
  split; [exact Hin|]. split; [exact Hmin|].
  destruct r as [|s r]; cbn [nth_error].
  - now apply Permutation_length_1_inv.
  - exists r. split; [now symmetry|].
    inversion Hs as [|? ? Hs' Hall]; subst.
    inversion Hs' as [|? ? _ Hall']; subst.
    split; [|exact Hall']. now inversion Hall.
Qed.

Lemma SelectClosest_ranking_witness :
  exists others,
    Permutation
      [mkCommit "a" 130 []; mkCommit "b" 105 []; mkCommit "c" 90 []]
      (mkCommit "b" 105 [] :: mkCommit "c" 90 [] :: others) /\
    distance 100 (mkCommit "b" 105 []) <= distance 100 (mkCommit "c" 90 []) /\
    Forall (fun c => distance 100 (mkCommit "c" 90 []) <= distance 100 c)
      others.
Proof.
  exact (proj2 (proj2 (SelectClosest_ranking
    [mkCommit "a" 130 []; mkCommit "b" 105 []; mkCommit "c" 90 []] []
    100 false no_flags (mkCommit "b" 105 []) (Some (mkCommit "c" 90 []))
    eq_refl))).
Defined.

(** The commits a finished traversal holds, and those a search selects
    from. *)
Lemma BuildCandidates_on_chain (tip : Commit) (T : Z) (st : state) :
  BuildCandidates tip T = Ok st ->
  NoDup (stack st ++ ooo_commits st) /\
  forall c, In c (stack st ++ ooo_commits st) -> In c (lineage tip).
Proof.
  intros H.
  assert (Hc : covers tip st)
    by exact (covers_while tip T _ _ _ (covers_init tip) H).
  split; [now apply (covers_NoDup tip)|].
  intros c Hin. apply (Permutation_in _ (covers_prefix tip st Hc)) in Hin.
  rewrite <- (firstn_skipn
                (length (stack st) + length (ooo_commits st)) (lineage tip)).
  apply in_or_app. now left.
Qed.

Lemma candidate_list_sound (stk ooo : list Commit) (T : Z)
    (target_ooo : bool) (args : Args) :
  NoDup (stk ++ ooo) ->
  NoDup (candidate_list stk ooo T target_ooo args) /\
  forall c, In c (candidate_list stk ooo T target_ooo args) ->
            In c (stk ++ ooo).
Proof.
  intros Hn. unfold candidate_list, merge_anomalies. split.
  - apply apply_policy_NoDup. destruct target_ooo; [exact Hn|].
    now apply NoDup_app_remove_r in Hn.
  - intros c Hc. apply apply_policy_In in Hc.
    destruct target_ooo; [exact Hc|]. apply in_or_app. now left.
Qed.

(** The stages of a successful search. *)
Lemma find_closest_commits_Ok (args : Args) (repo : Repo)
    (target_commit : Commit) (branch : string)
    (r : Commit * option Commit) :
  find_closest_commits args repo target_commit branch = Ok r ->
  exists target_ooo tip st,
    IsOutOfOrder target_commit = Ok target_ooo /\
    resolve_tip repo branch = Ok tip /\
    BuildCandidates tip (committed_datetime target_commit) = Ok st /\
    SelectClosest (stack st) (ooo_commits st)
      (committed_datetime target_commit)
      (if search_out_of_order args && negb target_ooo
       then true else target_ooo) args = Ok r.
Proof.
  unfold find_closest_commits. intros H.
  apply bind_Ok in H as (b & Hb & H).
  apply bind_Ok in H as (tip & Ht & H).
  apply bind_Ok in H as (st & Hs & H).
  now exists b, tip, st.
Qed.

(** X6.  What the search returns is on the first-parent chain of the
    searched tip, and the second best commit is another commit than the
    best one. *)
Theorem find_closest_commits_on_chain (args : Args) (repo : Repo)
    (target_commit : Commit) (branch : string) (best : Commit)
    (second : option Commit) :
  find_closest_commits args repo target_commit branch = Ok (best, second) ->
  exists tip,
    resolve_tip repo branch = Ok tip /\
    In best (lineage tip) /\
    forall s, second = Some s -> In s (lineage tip) /\ s <> best.
Proof.
  intros H.
  apply find_closest_commits_Ok in H as (b & tip & st & _ & Hr & Hb & Hsel).
  exists tip. split; [exact Hr|].
  destruct (BuildCandidates_on_chain _ _ _ Hb) as [Hn Hsub].
  set (T := committed_datetime target_commit) in *.
  set (b' := if search_out_of_order args && negb b then true else b) in *.
  destruct (candidate_list_sound (stack st) (ooo_commits st) T b' args Hn)
    as [Hnd Hin].
  assert (Hp := sort_by_Permutation (distance T)
                  (candidate_list (stack st) (ooo_commits st) T b' args)).
  unfold SelectClosest in Hsel. rewrite closest_pair_spec in Hsel.
  destruct (sort_by _ _) as [|x r] eqn:E; [discriminate|].
  injection Hsel as -> <-.
  apply (Permutation_NoDup (Permutation_sym Hp)) in Hnd.
  split.
  - apply Hsub, Hin, (Permutation_in _ Hp). now left.
  - intros s Hs. destruct r as [|y r]; [discriminate|].
    injection Hs as ->. split.
    + apply Hsub, Hin, (Permutation_in _ Hp). right. now left.
    + intros ->. inversion Hnd as [|? ? Hx _]. apply Hx. now left.
Qed.

Lemma find_closest_commits_on_chain_witness :
  exists tip,
    resolve_tip (repo_at (commit_15 [linear_history 197 (jan_2024 7 0) 60]))
      "master" = Ok tip /\
    In (commit_09 [linear_history 197 (jan_2024 7 0) 60]) (lineage tip) /\
    forall s,
      Some (commit_08 [linear_history 197 (jan_2024 7 0) 60]) = Some s ->
      In s (lineage tip) /\
      s <> commit_09 [linear_history 197 (jan_2024 7 0) 60].
Proof.
  apply (find_closest_commits_on_chain no_flags
           (repo_at (commit_15 [linear_history 197 (jan_2024 7 0) 60]))
           (orderly_target (jan_2024 10 12)) "master").
  vm_compute. reflexivity.
Defined.

Lemma last_item_In {A : Type} (l : list A) (x : A) :
  last_item l = Ok x -> In x l.
Proof.
  induction l as [|y l IH]; [discriminate|].
  destruct l as [|z l]; [intros [= ->]; now left|].
  intros H. right. now apply IH.
Qed.

Lemma StronglySorted_app_inv {A : Type} (R : A -> A -> Prop)
    (l1 l2 : list A) (x y : A) :
  StronglySorted R (l1 ++ l2) -> In x l1 -> In y l2 -> R x y.
Proof.
  induction l1 as [|a l1 IH]; cbn [app]; intros Hs Hx Hy; [destruct Hx|].
  inversion Hs as [|? ? Hs' Hall]; subst. destruct Hx as [->|Hx].
  - rewrite Forall_forall in Hall. apply Hall, in_or_app. now right.
  - now apply IH.
Qed.

(** On a chain whose committed times never increase towards the root,
    nothing is diverted: the stack is the visited part of the chain. *)
Lemma orderly_no_anomalies (tip : Commit) (T : Z) (st : state) :
  StronglySorted
    (fun a b => committed_datetime b <= committed_datetime a) (lineage tip) ->
  BuildCandidates tip T = Ok st ->
  ooo_commits st = [] /\
  exists top,
    last_item (stack st) = Ok top /\
    lineage tip = stack st ++ tl (lineage top).
Proof.
  intros Hs H.
  destruct (splits_while T tip _ _ _ (splits_init tip) H)
    as (gone & top & Htop & Hlin & Hperm & _ & Hgone).
  destruct (stack st) as [|s0 r] eqn:Es; [discriminate|].
  specialize (Hgone s0 eq_refl). rewrite Hlin in Hs.
  destruct gone as [|x gone].
  - apply Permutation_sym, Permutation_nil in Hperm. split; [exact Hperm|].
    exists top. now split.
  - exfalso. inversion Hgone as [|? ? Hx _]; subst.
    assert (Hle := StronglySorted_app_inv _ _ _ x s0 Hs
                     (or_introl eq_refl) (or_introl eq_refl)).
    cbn in Hle. lia.
Qed.

Lemma linear_history_orderly (n : nat) (t step : Z) :
  0 <= step ->
  StronglySorted
    (fun a b => committed_datetime b <= committed_datetime a)
    (lineage (linear_history n t step)).
Proof.
  intros Hstep.
  assert (G : forall n t,
             StronglySorted
               (fun a b => committed_datetime b <= committed_datetime a)
               (lineage (linear_history n t step)) /\
             Forall (fun b => committed_datetime b <= t)
               (lineage (linear_history n t step))).
  { clear n t. induction n as [|n IH]; intros t; cbn [linear_history lineage].
    - repeat constructor; cbn; lia.
    - destruct (IH (t - step)) as [IH1 IH2].
      change (match n with
              | O => []
              | S n' => [linear_history n' (t - step - step) step]
              end) with (parents (linear_history n (t - step) step)).
      change (mkCommit _ (t - step)
                (parents (linear_history n (t - step) step)))
        with (linear_history n (t - step) step).
      split.
      + constructor; [exact IH1|].
        eapply Forall_impl; [|exact IH2]. cbn. intros; lia.
      + constructor; [cbn; lia|].
        eapply Forall_impl; [|exact IH2]. cbn. intros; lia. }
  apply G.
Qed.

(** X7.  On a branch whose committed times never increase from the tip
    towards the root, a search without one-sided filter returns a best
    commit that is nearest to the reference time on the whole first-parent
    chain, also among the commits the bounded traversal never visited. *)
Theorem orderly_history_global_best (args : Args) (repo : Repo)
    (target_commit : Commit) (branch : string) (tip best : Commit)
    (second : option Commit) :
  StronglySorted
    (fun a b => committed_datetime b <= committed_datetime a) (lineage tip) ->
  resolve_tip repo branch = Ok tip ->
  always_after args = false -> always_before args = false ->
  find_closest_commits args repo target_commit branch = Ok (best, second) ->
  forall c, In c (lineage tip) ->
    distance (committed_datetime target_commit) best
    <= distance (committed_datetime target_commit) c.
Proof.
  intros Hs Hr Ha Hb H c Hc.
  apply find_closest_commits_Ok in H as (b & tip' & st & _ & Hr' & Hbuild & Hsel).
  assert (tip' = tip) as -> by congruence.
  set (T := committed_datetime target_commit) in *.
  destruct (orderly_no_anomalies tip T st Hs Hbuild)
    as (Hooo & top & Htop & Hlin).
  assert (Hlast : exists top', last_item (stack st) = Ok top' /\
                               committed_datetime top' <= T).
  { apply (while_loop_last T (S (depth tip)) (init_state tip) st);
      [discriminate|exact Hbuild]. }
  destruct Hlast as (top' & Htop' & HleT).
  assert (top' = top) as -> by congruence.
  unfold SelectClosest, candidate_list, merge_anomalies, apply_policy in Hsel.
  rewrite Ha, Hb, Hooo in Hsel.
  replace (if (if search_out_of_order args && negb b then true else b)
           then stack st ++ [] else stack st) with (stack st) in Hsel
    by (destruct (search_out_of_order args), b; cbn [andb negb];
        now rewrite ?app_nil_r).
  rewrite closest_pair_spec in Hsel.
  destruct (sort_by (distance T) (stack st)) as [|x r] eqn:E; [discriminate|].
  injection Hsel as -> _.
  destruct (sort_by_head _ _ _ _ E) as [_ Hmin].
  rewrite Hlin in Hc, Hs. apply in_app_or in Hc as [Hc|Hc]; [now apply Hmin|].
  assert (Hle := StronglySorted_app_inv _ _ _ top c Hs
                   (last_item_In _ _ Htop) Hc).
  specialize (Hmin top (last_item_In _ _ Htop)).
  unfold distance in *. cbn beta in Hle. lia.
Qed.

Lemma orderly_history_global_best_witness :
  let st := final_state (BuildCandidates (linear_history 400 1000 1) 900) in
  BuildCandidates (linear_history 400 1000 1) 900 = Ok st /\
  ~ In (linear_history 50 650 1) (stack st ++ ooo_commits st) /\
  distance (committed_datetime (orderly_target 900))
    (linear_history 300 900 1)
  <= distance (committed_datetime (orderly_target 900))
       (linear_history 50 650 1).
Proof.
  intros st. split; [vm_compute; reflexivity|]. split.
  - assert (Hd : Forall (fun x => (100 <= depth x)%nat)
                   (stack st ++ ooo_commits st)).
    { apply (Forall_of_forallb (fun x => (100 <=? depth x)%nat));
        [intros x Hx; exact (proj1 (Nat.leb_le _ _) Hx)
        | vm_compute; reflexivity]. }
    intros Hin. rewrite Forall_forall in Hd. specialize (Hd _ Hin).
    clear -Hd. vm_compute in Hd. lia.
  - apply (orderly_history_global_best no_flags
             (repo_at (linear_history 400 1000 1)) (orderly_target 900)
             "master" (linear_history 400 1000 1) (linear_history 300 900 1)
             (Some (linear_history 301 901 1))).
    + apply linear_history_orderly. lia.
    + reflexivity.
    + reflexivity.
    + reflexivity.
    + vm_compute. reflexivity.
    + apply (nth_error_In _ 350). vm_compute. reflexivity.
Defined.

(** X8.  On a branch whose committed times never increase from the tip
    towards the root there are no anomalies: the traversal diverts nothing,
    its stack is the visited beginning of the chain in chain order, and the
    selection is the same whether or not the anomalies are merged in. *)
Theorem orderly_history_no_anomalies (tip : Commit) (T : Z) (st : state) :
  StronglySorted
    (fun a b => committed_datetime b <= committed_datetime a) (lineage tip) ->
  BuildCandidates tip T = Ok st ->
  ooo_commits st = [] /\
  stack st = firstn (length (stack st)) (lineage tip) /\
  forall args,
    SelectClosest (stack st) (ooo_commits st) T true args
    = SelectClosest (stack st) (ooo_commits st) T false args.
Proof.
  intros Hs H.
  destruct (orderly_no_anomalies tip T st Hs H) as (Hooo & top & _ & Hlin).
  split; [exact Hooo|]. split.
  - rewrite Hlin at 1.
    now rewrite firstn_app, Nat.sub_diag, firstn_all, app_nil_r.
  - intros args. unfold SelectClosest, candidate_list, merge_anomalies.
    now rewrite Hooo, app_nil_r.
Qed.

Lemma orderly_history_no_anomalies_witness :
  let st := final_state (BuildCandidates (linear_history 300 1000 1) 990) in
  BuildCandidates (linear_history 300 1000 1) 990 = Ok st /\
  ooo_commits st = [].
Proof.
  intros st.
  assert (E : BuildCandidates (linear_history 300 1000 1) 990 = Ok st)
    by (vm_compute; reflexivity).
  split; [exact E|].
  refine (proj1 (orderly_history_no_anomalies
                   (linear_history 300 1000 1) 990 st _ E)).
  apply linear_history_orderly. lia.
Defined.

Lemma resolve_tip_raise (repo : Repo) (branch : string) (e : exn) :
  resolve_tip repo branch = Raise e -> e = BadName.
Proof.
  unfold resolve_tip. destruct (String.eqb _ _); [discriminate|].
  destruct (commit repo branch); [discriminate|now intros [= <-]].
Qed.

Lemma resolve_tip_fuel (repo : Repo) (branch : string) :
  resolve_tip repo branch <> OutOfFuel.
Proof.
  unfold resolve_tip. destruct (String.eqb _ _); [discriminate|].
  destruct (commit repo branch); discriminate.
Qed.

Lemma SelectClosest_raise (stk ooo : list Commit) (T : Z) (target_ooo : bool)
    (args : Args) (e : exn) :
  SelectClosest stk ooo T target_ooo args = Raise e ->
  e = IndexError /\ candidate_list stk ooo T target_ooo args = [].
Proof.
  unfold SelectClosest. rewrite closest_pair_spec.
  destruct (sort_by _ _) as [|x r] eqn:E; [|discriminate].
  intros [= <-]. split; [reflexivity|].
  apply (f_equal (@length _)) in E. rewrite sort_by_length in E.
  now destruct (candidate_list _ _ _ _ _).
Qed.

(** The stages at which a search can raise. *)
Lemma find_closest_commits_Raise (args : Args) (repo : Repo)
    (target_commit : Commit) (branch : string) (e : exn) :
  find_closest_commits args repo target_commit branch = Raise e ->
  (e = IndexError /\ IsOutOfOrder target_commit = Raise IndexError) \/
  (e = BadName /\ resolve_tip repo branch = Raise BadName) \/
  (e = IndexError /\ exists tip,
     resolve_tip repo branch = Ok tip /\
     BuildCandidates tip (committed_datetime target_commit)
       = Raise IndexError) \/
  (e = IndexError /\ exists target_ooo tip st,
     IsOutOfOrder target_commit = Ok target_ooo /\
     resolve_tip repo branch = Ok tip /\
     BuildCandidates tip (committed_datetime target_commit) = Ok st /\
     candidate_list (stack st) (ooo_commits st)
       (committed_datetime target_commit)
       (if search_out_of_order args && negb target_ooo
        then true else target_ooo) args = []).
Proof.
  unfold find_closest_commits. intros H.
  destruct (IsOutOfOrder_cases target_commit) as [[b Eb]|Eb];
    rewrite Eb in H; cbn [bind] in H; [|injection H as <-; now left].
  right.
  destruct (resolve_tip repo branch) as [tip|e'|] eqn:Er; cbn [bind] in H.
  - right.
    destruct (BuildCandidates tip (committed_datetime target_commit))
      as [st|e1|] eqn:Es; cbn [bind] in H; try discriminate.
    + right. apply SelectClosest_raise in H as [-> H].
      split; [reflexivity|]. now exists b, tip, st.
    + left. injection H as <-.
      rewrite (while_loop_raise _ _ _ _ Es). split; [reflexivity|].
      exists tip. split; [reflexivity|].
      now rewrite <- (while_loop_raise _ _ _ _ Es).
  - left. injection H as <-. rewrite (resolve_tip_raise _ _ _ Er).
    now split.
  - discriminate.
Qed.

(** X9.  Without [--always-after] and [--always-before] the selection
    cannot fail: once the lineage check has answered, the branch has
    resolved and the traversal has ended, the search returns a best commit,
    one of the commits the traversal holds. *)
Theorem unfiltered_selection_succeeds (args : Args) (repo : Repo)
    (target_commit : Commit) (branch : string) (target_ooo : bool)
    (tip : Commit) (st : state) :
  always_after args = false -> always_before args = false ->
  IsOutOfOrder target_commit = Ok target_ooo ->
  resolve_tip repo branch = Ok tip ->
  BuildCandidates tip (committed_datetime target_commit) = Ok st ->
  exists best second,
    find_closest_commits args repo target_commit branch = Ok (best, second) /\
    In best (stack st ++ ooo_commits st).
Proof.
  intros Ha Hb Hooo Hr Hs.
  unfold find_closest_commits. rewrite Hooo, Hr. cbn [bind]. rewrite Hs.
  cbn [bind].
  assert (Hc : covers tip st)
    by exact (covers_while tip _ _ _ _ (covers_init tip) Hs).
  destruct (SelectClosest (stack st) (ooo_commits st)
              (committed_datetime target_commit)
              (if search_out_of_order args && negb target_ooo
               then true else target_ooo) args)
    as [[best second]|e|] eqn:E.
  - exists best, second. split; [reflexivity|].
    apply SelectClosest_In in E as [Hin _].
    exact (proj2 (candidate_list_sound _ _ _ _ args (covers_NoDup tip st Hc))
             _ Hin).
  - exfalso. apply SelectClosest_raise in E as [_ Hl].
    destruct Hc as (_ & top & Htop & _).
    unfold candidate_list, merge_anomalies, apply_policy in Hl.
    rewrite Ha, Hb in Hl. apply last_item_In in Htop.
    destruct (if search_out_of_order args && negb target_ooo
              then true else target_ooo);
      [apply app_eq_nil in Hl as [Hl _]|]; rewrite Hl in Htop;
      destruct Htop.
  - exfalso. unfold SelectClosest in E. rewrite closest_pair_spec in E.
    destruct (sort_by _ _); discriminate.
Qed.

Lemma unfiltered_selection_succeeds_witness :
  let st :=
    final_state
      (BuildCandidates evicted_tip (committed_datetime (orderly_target 950)))
  in
  exists best second,
    find_closest_commits no_flags (repo_at evicted_tip)
      (orderly_target 950) "master" = Ok (best, second) /\
    In best (stack st ++ ooo_commits st).
Proof.
  intros st.
  apply (unfiltered_selection_succeeds no_flags (repo_at evicted_tip)
           (orderly_target 950) "master" false evicted_tip st).
  - reflexivity.
  - reflexivity.
  - vm_compute. reflexivity.
  - reflexivity.
  - vm_compute. reflexivity.
Defined.

(** X10.  Emptying the candidate list is not reported apart: on a branch
    whose commits are all earlier than the target commit, a search with
    [--always-after] never returns a commit but raises [IndexError]. *)
Theorem always_after_on_earlier_history (args : Args) (repo : Repo)
    (target_commit : Commit) (branch : string) (tip : Commit) :
  always_after args = true ->
  resolve_tip repo branch = Ok tip ->
  Forall (fun c => committed_datetime c < committed_datetime target_commit)
    (lineage tip) ->
  find_closest_commits args repo target_commit branch = Raise IndexError.
Proof.
  intros Ha Hr Hall.
  destruct (find_closest_commits args repo target_commit branch)
    as [[best second]|e|] eqn:H.
  - exfalso.
    apply find_closest_commits_Ok in H as (b & tip' & st & _ & Hr' & Hb & Hsel).
    assert (tip' = tip) as -> by congruence.
    destruct (BuildCandidates_on_chain _ _ _ Hb) as [Hn Hsub].
    apply SelectClosest_In in Hsel as [Hbest _].
    assert (Hin := proj2 (candidate_list_sound _ _ _ _ args Hn) _ Hbest).
    unfold candidate_list, apply_policy in Hbest. rewrite Ha in Hbest.
    apply filter_In in Hbest as [_ Hge].
    rewrite Forall_forall in Hall. specialize (Hall best (Hsub _ Hin)). lia.
  - apply find_closest_commits_Raise in H
      as [[-> _]|[[_ H]|[[-> _]|[-> _]]]]; try reflexivity.
    congruence.
  - now destruct (find_closest_commits_total args repo target_commit branch).
Qed.

Lemma always_after_on_earlier_history_witness :
  find_closest_commits (mkArgs false true false)
    (repo_at (linear_history 300 1000 1)) (orderly_target 2000) "master"
  = Raise IndexError.
Proof.
  apply (always_after_on_earlier_history (mkArgs false true false)
           (repo_at (linear_history 300 1000 1)) (orderly_target 2000)
           "master" (linear_history 300 1000 1)).
  - reflexivity.
  - reflexivity.
  - apply (Forall_of_forallb (fun c => committed_datetime c <? 2000));
      [intros c; cbn; lia | vm_compute; reflexivity].
Defined.

(** ** The report of a time difference *)

Lemma abs_diff_seconds (t1 t2 : Z) :
  0 <= seconds (abs_diff t1 t2) < 86400.
Proof. unfold abs_diff. cbn [seconds]. apply Z.mod_pos_bound. lia. Qed.

Lemma abs_diff_sym (t1 t2 : Z) : abs_diff t2 t1 = abs_diff t1 t2.
Proof.
  unfold abs_diff. now replace (Z.abs (t2 - t1)) with (Z.abs (t1 - t2)) by lia.
Qed.

Lemma truthy_suffixed (x y : string) :
  y <> EmptyString -> truthy (Some (x ++ y)%string) = true.
Proof.
  intros Hy. cbn [truthy]. destruct x as [|a x]; cbn.
  - destruct y; [now elim Hy | reflexivity].
  - reflexivity.
Qed.

(** X11.  [time_diff] splits the seconds of the absolute difference that
    are left over after whole days into hours, minutes and seconds: the
    three numbers add up to them, with less than 24 hours, 60 minutes and
    60 seconds.  The seconds are always reported, the hours from one hour
    on, and the minutes from one minute on, also when their number is 0
    (after a full hour).  The order of the two instants does not matter. *)
Theorem time_diff_components (t1 t2 : Z) :
  let s := Z.abs (t1 - t2) mod 86400 in
  let h := s / 3600 in
  let m := s mod 3600 / 60 in
  let sec := s mod 60 in
  s = 3600 * h + 60 * m + sec /\
  0 <= h < 24 /\ 0 <= m < 60 /\ 0 <= sec < 60 /\
  td_seconds (time_diff t1 t2) = (fmt sec ++ " second(s)")%string /\
  td_minutes (time_diff t1 t2) =
    (if s <? 60 then None else Some (fmt m ++ " minute(s)")%string) /\
  td_hours (time_diff t1 t2) =
    (if s <? 3600 then None else Some (fmt h ++ " hour(s)")%string) /\
  time_diff t2 t1 = time_diff t1 t2.
Proof.
  intros s h m sec.
  assert (Hs : 0 <= s < 86400) by (apply Z.mod_pos_bound; lia).
  assert (E1 := Z.div_mod s 3600 ltac:(lia)).
  assert (E2 := Z.div_mod (s mod 3600) 60 ltac:(lia)).
  assert (E3 : s mod 60 = (s mod 3600) mod 60).
  { rewrite (Z.div_mod s 3600) at 1 by lia.
    replace (3600 * (s / 3600)) with ((60 * (s / 3600)) * 60) by lia.
    rewrite Z.add_comm, Z.mod_add by lia. reflexivity. }
  assert (B1 := Z.mod_pos_bound s 3600 ltac:(lia)).
  assert (B2 := Z.mod_pos_bound (s mod 3600) 60 ltac:(lia)).
  assert (B3 := Z.mod_pos_bound s 60 ltac:(lia)).
  assert (Hh : 0 <= h < 24).
  { unfold h. split; [apply Z.div_pos; lia|].
    apply Z.div_lt_upper_bound; lia. }
  assert (Hm : 0 <= m < 60).
  { unfold m. split; [apply Z.div_pos; lia|].
    apply Z.div_lt_upper_bound; lia. }
  repeat split; try (unfold h, m, sec in *; lia).
  - unfold time_diff, abs_diff. cbn [td_minutes seconds]. fold s.
    destruct (Z.ltb_spec s 60) as [Hlt|Hge].
    + now rewrite Z.div_small by lia.
    + destruct (Z.eqb_spec (s / 60) 0) as [E|E]; [|reflexivity].
      apply Z.div_small_iff in E; lia.
  - unfold time_diff, abs_diff. cbn [td_hours seconds]. fold s.
    destruct (Z.ltb_spec s 3600) as [Hlt|Hge].
    + now rewrite Z.div_small by lia.
    + destruct (Z.eqb_spec (s / 3600) 0) as [E|E]; [|reflexivity].
      apply Z.div_small_iff in E; lia.
  - unfold time_diff. now rewrite abs_diff_sym.
Qed.

(** X12.  The text of a time difference lists, separated by a comma and a
    space, the hours, minutes and seconds from the largest unit present
    on: seconds alone below one minute, minutes and seconds below one hour,
    all three from one hour on.  It is never empty. *)
Theorem time_diff_string_forms (t1 t2 : Z) :
  let s := Z.abs (t1 - t2) mod 86400 in
  let hours := (fmt (s / 3600) ++ " hour(s)")%string in
  let minutes := (fmt (s mod 3600 / 60) ++ " minute(s)")%string in
  let secs := (fmt (s mod 60) ++ " second(s)")%string in
  time_diff_string (time_diff t1 t2) =
    (if s <? 60 then secs
     else if s <? 3600 then (minutes ++ ", " ++ secs)%string
     else (hours ++ ", " ++ minutes ++ ", " ++ secs)%string) /\
  time_diff_string (time_diff t1 t2) <> EmptyString.
Proof.
  intros s hours minutes secs.
  assert (Hs : 0 <= s < 86400) by (apply Z.mod_pos_bound; lia).
  assert (Tsec : truthy (Some secs) = true)
    by (apply truthy_suffixed; discriminate).
  assert (Tmin : truthy (Some minutes) = true)
    by (apply truthy_suffixed; discriminate).
  assert (Thr : truthy (Some hours) = true)
    by (apply truthy_suffixed; discriminate).
  assert (E : time_diff_string (time_diff t1 t2) =
    (if s <? 60 then secs
     else if s <? 3600 then (minutes ++ ", " ++ secs)%string
     else (hours ++ ", " ++ minutes ++ ", " ++ secs)%string)).
  { unfold time_diff_string, time_diff, abs_diff.
    cbn [td_hours td_minutes td_seconds seconds]. fold s.
    fold hours. fold minutes. fold secs.
    destruct (Z.ltb_spec s 60) as [H60|H60].
    - rewrite !Z.div_small by lia. cbn [Z.eqb truthy_strings].
      change (truthy None) with false. cbv iota.
      rewrite Tsec. reflexivity.
    - destruct (Z.eqb_spec (s / 60) 0) as [E|_];
        [apply Z.div_small_iff in E; lia|].
      destruct (Z.ltb_spec s 3600) as [H36|H36].
      + rewrite (Z.div_small s 3600) by lia. cbn [Z.eqb truthy_strings].
        change (truthy None) with false. cbv iota.
        rewrite Tmin, Tsec. reflexivity.
      + destruct (Z.eqb_spec (s / 3600) 0) as [E|_];
          [apply Z.div_small_iff in E; lia|].
        cbn [truthy_strings]. rewrite Thr, Tmin, Tsec. reflexivity. }
  split; [exact E|]. rewrite E.
  assert (N : forall x y : string, y <> EmptyString ->
                (x ++ y)%string <> EmptyString).
  { intros x y Hy. destruct x; [exact Hy | discriminate]. }
  destruct (s <? 60); [|destruct (s <? 3600)];
    repeat (apply N); discriminate.
Qed.

Lemma abs_diff_days (t1 t2 : Z) :
  (days (abs_diff t1 t2) =? 0) = (Z.abs (t1 - t2) <? 86400).
Proof.
  unfold abs_diff. cbn [days].
  destruct (Z.ltb_spec (Z.abs (t1 - t2)) 86400) as [H|H].
  - rewrite Z.div_small by lia. reflexivity.
  - apply Z.eqb_neq. intros E. apply Z.div_small_iff in E; lia.
Qed.

(** The colour of the report below one day. *)
Lemma time_diff_colour (t1 t2 : Z) :
  Z.abs (t1 - t2) < 86400 ->
  truthy (td_hours (time_diff t1 t2)) || truthy (td_minutes (time_diff t1 t2))
  = negb (Z.abs (t1 - t2) <? 60).
Proof.
  intros Hd. unfold time_diff, abs_diff. cbn [td_hours td_minutes seconds].
  rewrite (Z.mod_small (Z.abs (t1 - t2)) 86400) by lia.
  destruct (Z.ltb_spec (Z.abs (t1 - t2)) 60) as [H|H].
  - rewrite !Z.div_small by lia. reflexivity.
  - destruct (Z.eqb_spec (Z.abs (t1 - t2) / 60) 0) as [E|_];
      [apply Z.div_small_iff in E; lia|].
    rewrite truthy_suffixed by discriminate. apply orb_true_r.
Qed.

(** X13.  The comparison of two commits is reported in bold red exactly
    when their committed times are a day or more apart, in yellow exactly
    when they are at least a minute and less than a day apart, and in green
    exactly when they are less than a minute apart; the request to check
    the result ([warn]) shows only in the red report. *)
Theorem print_commit_comp_colour (ref comp : Z) (target_str : string)
    (warn : bool) :
  let d := Z.abs (ref - comp) in
  let msg := print_commit_comp ref comp target_str warn in
  (prefix (color_BOLD ++ color_RED) msg = true <-> 86400 <= d) /\
  (prefix color_YELLOW msg = true <-> 60 <= d < 86400) /\
  (prefix color_GREEN msg = true <-> d < 60) /\
  (d < 86400 ->
   print_commit_comp ref comp target_str true
   = print_commit_comp ref comp target_str false).
Proof.
  intros d msg. unfold msg, print_commit_comp.
  rewrite abs_diff_days. fold d.
  destruct (Z.ltb_spec d 86400) as [Hd|Hd]; cbn [negb].
  - rewrite (time_diff_colour ref comp Hd). fold d.
    destruct (Z.ltb_spec d 60) as [H60|H60]; cbn [negb];
      (split; [|split; [|split]]); [split|split|split| | split|split|split| ];
      intros H; try lia; try reflexivity;
      try (exfalso; revert H; cbv; discriminate).
  - (split; [|split; [|split]]); [split|split|split| ];
      intros H; try lia; try reflexivity;
      try (exfalso; revert H; cbv; discriminate).
Qed.

(** X14.  [prn] writes a message exactly when its verbosity does not exceed
    the number of [-v] given and the output is not silenced; [--silent]
    silences it only when neither [--verbose] nor [--dry-run] is given, as
    its help text says, and then nothing at all is written. *)
Theorem prn_silent (args : OutputArgs) (str : string) (end_ : option string)
    (verbosity : nat) :
  (prn args str end_ verbosity <> None <->
   (verbosity <= verbose args)%nat /\
   ~ (silent args = true /\ verbose args = O /\ dry_run args = false)) /\
  (verbose args <> O \/ dry_run args = true ->
   prn args str end_ verbosity =
   prn (mkOutputArgs false (verbose args) (dry_run args)) str end_ verbosity) /\
  (silent args = true -> verbose args = O -> dry_run args = false ->
   prn args str end_ verbosity = None).
Proof.
  unfold prn. destruct args as [s v dr]. cbn [silent verbose dry_run].
  destruct s, dr, (Nat.eqb_spec v 0), (Nat.leb_spec verbosity v);
    cbn [andb orb negb];
    intuition (try discriminate; try congruence; try lia).
Qed.

(** ** The Enterprise path *)

Lemma pystr_eqb_eq (s1 s2 : pystr) : pystr_eqb s1 s2 = true <-> s1 = s2.
Proof.
  revert s2. induction s1 as [|c1 s1 IH]; intros [|c2 s2]; cbn [pystr_eqb];
    try (split; [discriminate|intros [=]]); [now split|].
  rewrite andb_true_iff, N.eqb_eq, IH. split; [intros [-> ->]|intros [= -> ->]];
    auto.
Qed.

Lemma endswith_spec (s suffix : pystr) :
  endswith s suffix = true <-> exists pre, s = pre ++ suffix.
Proof.
  unfold endswith. rewrite andb_true_iff, Nat.leb_le, pystr_eqb_eq. split.
  - intros [_ H]. exists (firstn (length s - length suffix) s).
    rewrite <- H at 2. symmetry. apply firstn_skipn.
  - intros [pre ->]. rewrite length_app. split; [lia|].
    replace (length pre + length suffix - length suffix)%nat
      with (length pre + 0)%nat by lia.
    now rewrite skipn_app, Nat.add_0_r, skipn_all, Nat.sub_diag.
Qed.

Lemma split_no_sep (sep : N) (s field : pystr) :
  In field (split sep s) -> ~ In sep field.
Proof.
  revert field. induction s as [|c s IH]; intros field; cbn [split].
  - intros [<-|[]] [].
  - destruct (N.eqb_spec c sep) as [->|Hc].
    + intros [<-|H]; [intros []|now apply IH].
    + destruct (split sep s) as [|f fs] eqn:E.
      * intros [<-|[]] [H|[]]. now apply Hc.
      * intros [<-|H]; [|apply IH; now right].
        intros [H|H]; [now apply Hc|]. apply (IH f); [now left|exact H].
Qed.

Lemma split_id (sep : N) (s : pystr) : ~ In sep s -> split sep s = [s].
Proof.
  induction s as [|c s IH]; intros H; cbn [split]; [reflexivity|].
  destruct (N.eqb_spec c sep) as [->|_]; [elim H; now left|].
  rewrite IH; [reflexivity|]. intros Hin. apply H. now right.
Qed.

Lemma lstrip_head (s r : pystr) (c : N) :
  lstrip s = c :: r -> isspace c = false.
Proof.
  induction s as [|x s IH]; cbn [lstrip]; [discriminate|].
  destruct (isspace x) eqn:E; [exact IH|]. now intros [= <- _].
Qed.

Lemma lstrip_incl (s : pystr) (x : N) : In x (lstrip s) -> In x s.
Proof.
  induction s as [|c s IH]; cbn [lstrip]; [auto|].
  destruct (isspace c); [|auto]. intros H. right. now apply IH.
Qed.

Lemma lstrip_app (pre p : pystr) (c : N) :
  isspace c = false -> lstrip (pre ++ c :: p) = lstrip pre ++ c :: p.
Proof.
  intros Hc. induction pre as [|x pre IH]; cbn [app lstrip].
  - now rewrite Hc.
  - destruct (isspace x); [exact IH | reflexivity].
Qed.

(** Stripping a path that ends with ['/enterprise'] removes its leading
    white space and nothing else. *)
Lemma strip_enterprise (pre : pystr) :
  strip (pre ++ lit "/enterprise") = lstrip pre ++ lit "/enterprise".
Proof.
  unfold strip. change (lit "/enterprise") with (47%N :: lit "enterprise").
  rewrite lstrip_app by reflexivity. rewrite rev_app_distr.
  change (rev (47%N :: lit "enterprise"))
    with (101%N :: rev (47%N :: lit "enterpris")).
  cbn [app lstrip]. change (isspace 101) with false. cbv iota.
  change (101%N :: rev (47%N :: lit "enterpris") ++ rev (lstrip pre))
    with (rev (47%N :: lit "enterprise") ++ rev (lstrip pre)).
  now rewrite rev_app_distr, !rev_involutive.
Qed.

Lemma find_first {A : Type} (f : A -> bool) (l : list A) (x : A) :
  find f l = Some x ->
  exists before after,
    l = before ++ x :: after /\
    Forall (fun y => f y = false) before /\ f x = true.
Proof.
  induction l as [|y l IH]; cbn [find]; [discriminate|].
  destruct (f y) eqn:E.
  - intros [= ->]. exists [], l. repeat split; [constructor | exact E].
  - intros H. destruct (IH H) as (before & after & -> & Hb & Hx).
    exists (y :: before), after. repeat split; [now constructor | exact Hx].
Qed.

(** X15.  The Enterprise path found in [addons_path] is the first of its
    comma-separated entries that ends with ['/enterprise'], with its
    leading white space removed: it still ends with ['/enterprise'],
    holds no comma and does not start with white space. *)
Theorem enterprise_path_found (addons_path p : pystr) :
  enterprise_path addons_path = Some p ->
  exists before pre after,
    split 44 addons_path = before ++ (pre ++ lit "/enterprise") :: after /\
    Forall (fun path => endswith path (lit "/enterprise") = false) before /\
    p = lstrip pre ++ lit "/enterprise" /\
    ~ In 44%N p /\
    (forall c r, p = c :: r -> isspace c = false).
Proof.
  unfold enterprise_path. intros H.
  destruct (find _ (split 44 addons_path)) as [field|] eqn:E; [|discriminate].
  injection H as <-.
  apply find_first in E as (before & after & Es & Hb & Hx).
  apply endswith_spec in Hx as [pre ->].
  exists before, pre, after. rewrite strip_enterprise.
  split; [exact Es|]. split; [exact Hb|]. split; [reflexivity|]. split.
  - intros Hin.
    apply (split_no_sep 44 addons_path (pre ++ lit "/enterprise")).
    + rewrite Es. apply in_or_app. right. now left.
    + apply in_app_or in Hin as [Hin|Hin]; apply in_or_app;
        [left; now apply lstrip_incl | now right].
  - intros c r Hp. destruct (lstrip pre) as [|x l] eqn:El.
    + cbn [app] in Hp. injection Hp as <- _. reflexivity.
    + cbn [app] in Hp. injection Hp as <- _. now apply lstrip_head in El.
Qed.

Lemma enterprise_path_found_witness :
  exists before pre after,
    split 44 (lit "/opt/odoo/addons, /opt/enterprise,/srv/enterprise")
    = before ++ (pre ++ lit "/enterprise") :: after /\
    Forall (fun path => endswith path (lit "/enterprise") = false) before /\
    lit "/opt/enterprise" = lstrip pre ++ lit "/enterprise" /\
    ~ In 44%N (lit "/opt/enterprise") /\
    (forall c r, lit "/opt/enterprise" = c :: r -> isspace c = false).
Proof.
  exact (enterprise_path_found
           (lit "/opt/odoo/addons, /opt/enterprise,/srv/enterprise")
           (lit "/opt/enterprise") eq_refl).
Defined.

(** X16.  No Enterprise path is found exactly when no comma-separated
    entry of [addons_path] ends with ['/enterprise'].  The test comes
    before the stripping: a single entry that ends with ['/enterprise'] is
    found, the same entry followed by white space is not. *)
Theorem enterprise_path_none (addons_path : pystr) :
  (enterprise_path addons_path = None <->
   Forall (fun path => endswith path (lit "/enterprise") = false)
     (split 44 addons_path)) /\
  (forall (pre : pystr) (ws : N),
     ~ In 44%N pre -> isspace ws = true ->
     enterprise_path (pre ++ lit "/enterprise")
       = Some (lstrip pre ++ lit "/enterprise") /\
     enterprise_path (pre ++ lit "/enterprise" ++ [ws]) = None).
Proof.
  split.
  - unfold enterprise_path. split.
    + intros H. apply Forall_forall. intros f Hf.
      destruct (find _ (split 44 addons_path)) eqn:E; [discriminate|].
      now apply (find_none _ _ E).
    + intros H. destruct (find _ (split 44 addons_path)) as [f|] eqn:E;
        [|reflexivity].
      apply find_some in E as [Hin Hf]. rewrite Forall_forall in H.
      rewrite (H f Hin) in Hf. discriminate.
  - intros pre ws Hpre Hws.
    assert (Hw : ws <> 44%N /\ ws <> 101%N)
      by (split; intros ->; discriminate).
    unfold enterprise_path. split.
    + rewrite split_id.
      * cbn [find].
        rewrite (proj2 (endswith_spec _ _) (ex_intro _ pre eq_refl)).
        cbn [option_map]. now rewrite strip_enterprise.
      * intros H. apply in_app_or in H as [H|H]; [now apply Hpre|].
        revert H. cbv. intuition discriminate.
    + rewrite split_id.
      * cbn [find].
        destruct (endswith _ _) eqn:E; [|reflexivity].
        apply endswith_spec in E as [pre' E].
        apply (f_equal (@rev _)) in E.
        rewrite !app_assoc, rev_unit in E. rewrite !rev_app_distr in E.
        change (rev (lit "/enterprise"))
          with (101%N :: rev (lit "/enterpris")) in E.
        cbn [app] in E. injection E as E _. now destruct Hw.
      * intros H. apply in_app_or in H as [H|H]; [now apply Hpre|].
        apply in_app_or in H as [H|[H|[]]]; [|now destruct Hw].
        revert H. cbv. intuition discriminate.
Qed.

Lemma enterprise_path_none_witness :
  enterprise_path (lit " /opt/enterprise")
    = Some (lstrip (lit " /opt") ++ lit "/enterprise") /\
  enterprise_path (lit " /opt" ++ lit "/enterprise" ++ [32%N]) = None.
Proof.
  apply (proj2 (enterprise_path_none []) (lit " /opt") 32%N).
  - cbv. intuition discriminate.
  - reflexivity.
Defined.

(** ** The order of the ties *)

(** C1, as the specification states it, fails: the order that ties keep is
    not the traversal order once the anomalies are merged in.  On the chain
    committed at 90, 90, 110, 80, 79, ... the first three commits are all
    10 seconds from the reference time 100; the traversal visits them in
    this order, diverts the first two when it meets the third, and a search
    with [--search-out-of-order] returns the third as best and the second
    as second best. *)
Lemma ties_not_in_traversal_order :
  firstn 3 (lineage tied_tip)
  = [tied_tip;
     mkCommit "b" 90 [mkCommit "c" 110 [linear_history 250 80 1]];
     mkCommit "c" 110 [linear_history 250 80 1]] /\
  map (distance 100) (firstn 3 (lineage tied_tip)) = [10; 10; 10] /\
  Forall (fun c => 10 < distance 100 c) (skipn 3 (lineage tied_tip)) /\
  find_closest_commits (mkArgs true false false) (repo_at tied_tip)
    (orderly_target 100) "master"
  = Ok (mkCommit "c" 110 [linear_history 250 80 1],
        Some (mkCommit "b" 90 [mkCommit "c" 110 [linear_history 250 80 1]])).
Proof.
  split; [reflexivity|]. split; [reflexivity|]. split.
  - apply (Forall_of_forallb (fun c => 10 <? distance 100 c));
      [intros c; lia | vm_compute; reflexivity].
  - vm_compute. reflexivity.
Qed.

(** C1, amended.  The selector sorts the merged and filtered candidate list
    by absolute time distance to the reference timestamp, ascending and
    stably: the commits at any one distance keep the order they have in
    that list.  The list is the filtered stack followed, when the anomalies
    are merged, by the filtered anomalies; after a traversal the stack is a
    run of consecutive commits of the first-parent chain in traversal
    order, and the anomalies are the commits visited before that run, so
    that merged anomalies come after commits visited later.  The selector
    returns the first element of the sorted list as best and the second as
    second best, which is absent exactly when the list has fewer than two
    entries; on an empty list the lookup of the first element raises. *)
Theorem SelectClosest_sorted_stable (stk ooo : list Commit) (T : Z)
    (target_ooo : bool) (args : Args) :
  let l := candidate_list stk ooo T target_ooo args in
  let s := sort_by (distance T) l in
  StronglySorted (fun a b => distance T a <= distance T b) s /\
  Permutation s l /\
  (forall d : Z,
     filter (fun c => distance T c =? d) s =
     filter (fun c => distance T c =? d) l) /\
  SelectClosest stk ooo T target_ooo args =
    match s with
    | [] => Raise IndexError
    | best :: _ => Ok (best, nth_error s 1)
    end /\
  (nth_error s 1 = None <-> (length l < 2)%nat) /\
  l = (if target_ooo
       then apply_policy args T stk ++ apply_policy args T ooo
       else apply_policy args T stk) /\
  (forall tip st,
     BuildCandidates tip T = Ok st ->
     exists rest,
       lineage tip
       = firstn (length (ooo_commits st)) (lineage tip) ++ stack st ++ rest /\
       Permutation (ooo_commits st)
         (firstn (length (ooo_commits st)) (lineage tip))).
Proof.
  intros l s. repeat split.
  - apply sort_by_sorted.
  - apply sort_by_Permutation.
  - intros d. apply sort_by_stable.
  - unfold SelectClosest. fold l. fold s. apply closest_pair_spec.
  - rewrite nth_error_None. unfold s. rewrite sort_by_length. lia.
  - rewrite nth_error_None. unfold s. rewrite sort_by_length. lia.
  - unfold l, candidate_list, merge_anomalies.
    destruct target_ooo; [apply apply_policy_app | reflexivity].
  - intros tip st H.
    destruct (splits_while T tip _ _ _ (splits_init tip) H)
      as (gone & top & _ & Hlin & Hperm & _).
    assert (Hk : firstn (length (ooo_commits st)) (lineage tip) = gone).
    { rewrite (Permutation_length Hperm), Hlin.
      now rewrite firstn_app, Nat.sub_diag, firstn_all, app_nil_r. }
    rewrite Hk. eauto.
Qed.

Lemma SelectClosest_sorted_stable_witness :
  SelectClosest
    [mkCommit "c" 110 []; mkCommit "d" 80 []]
    [mkCommit "b" 90 []; mkCommit "a" 90 []] 100 true no_flags
  = Ok (mkCommit "c" 110 [], Some (mkCommit "b" 90 [])).
Proof.
  exact (proj1 (proj2 (proj2 (proj2 (SelectClosest_sorted_stable
    [mkCommit "c" 110 []; mkCommit "d" 80 []]
    [mkCommit "b" 90 []; mkCommit "a" 90 []] 100 true no_flags))))).
Defined.
